(** * PyTracker: device registry, pose conversion and sample buffer

    A shallow embedding of [pytracker/core] (utils.py, pose_buffer.py,
    device.py, tracker.py) and the properties of its specification.

    Conventions of the embedding.
    - Python floats are idealised as real numbers ([R]); the places where
      Python raises instead of computing (division by zero, [math.sqrt] of a
      negative number, a square too large for a float, indexing out of
      range, a missing dict key) are explicit results [Raise e].  Rounding
      is not modelled; what depends on a sum of entries being exactly zero
      is stated for the poses of a rigid body ([is_rotation]).
    - Python dicts are [gmap]s, Python lists are [list]s ([append] adds at
      the end).
    - Methods that mutate [self] are functions [S -> S * result A]: the
      state reached is returned also when the call raises, because the
      mutations done before the exception stay done. *)

From Stdlib Require Import Reals Lra ZArith RNsatz.
From stdpp Require Import gmap strings list fin_maps pretty.

(** ** Exceptions and the two monads *)

Inductive exn : Type :=
  | KeyError
  | IndexError
  | ValueError
  | ZeroDivisionError
  | OverflowError
  | PyException (msg : string).

Inductive result (A : Type) : Type :=
  | Ok (a : A)
  | Raise (e : exn).
Arguments Ok {A} a.
Arguments Raise {A} e.

#[global] Instance result_ret : MRet result := fun A a => Ok a.
#[global] Instance result_bind : MBind result := fun A B f r =>
  match r with
  | Ok a => f a
  | Raise e => Raise e
  end.

(** A method on a mutable object of type [S]. *)
Definition M (S A : Type) : Type := S -> S * result A.

Definition ret {S A} (a : A) : M S A := fun s => (s, Ok a).
Definition raise {S A} (e : exn) : M S A := fun s => (s, Raise e).
Definition bind {S A B} (c : M S A) (k : A -> M S B) : M S B :=
  fun s => match c s with
           | (s', Ok a) => k a s'
           | (s', Raise e) => (s', Raise e)
           end.
Definition lift {S A} (r : result A) : M S A := fun s => (s, r).
Definition modify {S} (f : S -> S) : M S unit := fun s => (f s, Ok tt).

Notation "'let*' x ':=' c 'in' k" := (bind c (fun x => k))
  (at level 10, x name, c at level 100, k at level 200).

(** ** Python primitives *)

(** [l[i]] for a non-negative index. *)
Definition getitem {A} (l : list A) (i : nat) : result A :=
  match l !! i with
  | Some a => Ok a
  | None => Raise IndexError
  end.

(** [d[k]] on a dict. *)
Definition dict_get `{Countable K} {V} (d : gmap K V) (k : K) : result V :=
  match d !! k with
  | Some v => Ok v
  | None => Raise KeyError
  end.

(** [a / b] on floats. *)
Definition truediv (a b : R) : result R :=
  if Req_dec_T b 0 then Raise ZeroDivisionError else Ok (a / b)%R.

(** [math.sqrt]. *)
Definition math_sqrt (a : R) : result R :=
  if Rlt_dec a 0 then Raise ValueError else Ok (sqrt a).

(** The least real that rounds to infinity as a float: half a unit in the
    last place above the largest float, [(2 - 2^-52) * 2^1023]. *)
Definition overflow_bound : R := (2 ^ 1024 - 2 ^ 970)%R.

(** [a ** 2], [pow(a, 2)] and [math.pow(a, 2)] on a float: the three raise
    [OverflowError] when the square is too large for a float. *)
Definition pow2 (a : R) : result R :=
  if Rle_dec overflow_bound (a ^ 2) then Raise OverflowError
  else Ok (a ^ 2)%R.

(** [math.atan2(y, x)], the angle of the point [(x, y)] in [(-pi, pi]]. *)
Definition math_atan2 (y x : R) : R :=
  if Rlt_dec 0 x then atan (y / x)
  else if Rlt_dec x 0 then
    (if Rle_dec 0 y then atan (y / x) + PI else atan (y / x) - PI)%R
  else if Rlt_dec 0 y then (PI / 2)%R
  else if Rlt_dec y 0 then (- PI / 2)%R
  else 0%R.

(** ** utils.py *)

Module utils.

(** A pose matrix is a list of rows; [m[i][j]] raises [IndexError] when
    the row or the column is missing. *)
Definition matrix : Type := list (list R).

Definition at2 (m : matrix) (i j : nat) : result R :=
  row ← getitem m i; getitem row j.

Definition is_3x4 (m : matrix) : Prop :=
  length m = 3 ∧ Forall (λ row, length row = 4) m.

(** The entry [m[i][j]] of a matrix that has it. *)
Definition entry (m : matrix) (i j : nat) : R := nth j (nth i m []) 0%R.

Definition mat34 (a0 a1 a2 a3 b0 b1 b2 b3 c0 c1 c2 c3 : R) : matrix :=
  [ [a0; a1; a2; a3]; [b0; b1; b2; b3]; [c0; c1; c2; c3] ].

(** The poses of a rigid body: the 3x3 block has orthonormal rows and
    determinant one. *)
Definition is_rotation (m : matrix) : Prop :=
  let a := entry m 0 0 in let b := entry m 0 1 in let c := entry m 0 2 in
  let d := entry m 1 0 in let e := entry m 1 1 in let f := entry m 1 2 in
  let g := entry m 2 0 in let h := entry m 2 1 in let k := entry m 2 2 in
  (a * a + b * b + c * c = 1 ∧ d * d + e * e + f * f = 1 ∧
   g * g + h * h + k * k = 1 ∧
   a * d + b * e + c * f = 0 ∧ a * g + b * h + c * k = 0 ∧
   d * g + e * h + f * k = 0 ∧
   a * (e * k - f * h) - b * (d * k - f * g) + c * (d * h - e * g) = 1)%R.

Definition identity_matrix : matrix :=
  mat34 1 0 0 0
        0 1 0 0
        0 0 1 0.

(** The quarter turn about the third axis. *)
Definition quarter_turn : matrix :=
  mat34 0 (-1) 0 0
        1 0 0 0
        0 0 1 0.

(** A turn about the third axis by an obtuse angle, of cosine [-3/5] and
    sine [4/5]. *)
Definition obtuse_turn : matrix :=
  mat34 (-3/5) (-4/5) 0 0
        (4/5) (-3/5) 0 0
        0 0 1 0.

(** The half turn about the third axis. *)
Definition half_turn : matrix :=
  mat34 (-1) 0 0 0
        0 (-1) 0 0
        0 0 1 0.


Definition convert_to_euler (pose_mat : matrix) : result (list R) :=
  m10 ← at2 pose_mat 1 0;
  m00 ← at2 pose_mat 0 0;
  let yaw := (180 / PI * math_atan2 m10 m00)%R in
  m20 ← at2 pose_mat 2 0;
  m21 ← at2 pose_mat 2 1;
  p21 ← pow2 m21;
  m22 ← at2 pose_mat 2 2;
  p22 ← pow2 m22;
  s ← math_sqrt (p21 + p22)%R;
  let pitch := (180 / PI * math_atan2 (- m20) s)%R in
  m21' ← at2 pose_mat 2 1;
  m22' ← at2 pose_mat 2 2;
  let roll := (180 / PI * math_atan2 m21' m22')%R in
  x ← at2 pose_mat 0 3;
  y ← at2 pose_mat 1 3;
  z ← at2 pose_mat 2 3;
  mret [x; y; z; yaw; pitch; roll].

Definition convert_to_quaternion (pose_mat : matrix) : result (list R) :=
  m00 ← at2 pose_mat 0 0;
  m11 ← at2 pose_mat 1 1;
  m22 ← at2 pose_mat 2 2;
  s ← math_sqrt (Rabs (1 + m00 + m11 + m22));
  let r_w := (s / 2)%R in
  m21 ← at2 pose_mat 2 1;
  m12 ← at2 pose_mat 1 2;
  r_x ← truediv (m21 - m12) (4 * r_w);
  m02 ← at2 pose_mat 0 2;
  m20 ← at2 pose_mat 2 0;
  r_y ← truediv (m02 - m20) (4 * r_w);
  m10 ← at2 pose_mat 1 0;
  m01 ← at2 pose_mat 0 1;
  r_z ← truediv (m10 - m01) (4 * r_w);
  x ← at2 pose_mat 0 3;
  y ← at2 pose_mat 1 3;
  z ← at2 pose_mat 2 3;
  mret [x; y; z; r_w; r_x; r_y; r_z].

End utils.

(** ** pose_buffer.py *)

Module pose_buffer.
Import utils.

Record PoseSampleBuffer : Type := mkBuffer {
  i : Z;
  index : list Z;
  time : list R;
  x : list R;
  y : list R;
  z : list R;
  yaw : list R;
  pitch : list R;
  roll : list R;
  r_w : list R;
  r_x : list R;
  r_y : list R;
  r_z : list R
}.

(** [PoseSampleBuffer()] *)
Definition init : PoseSampleBuffer :=
  mkBuffer 0 [] [] [] [] [] [] [] [] [] [] [] [].

(** [self.<column>.append(v)], one definition per column. *)
Definition time_append (v : R) : M PoseSampleBuffer unit := modify (λ b,
  mkBuffer (i b) (index b) (time b ++ [v]) (x b) (y b) (z b) (yaw b)
    (pitch b) (roll b) (r_w b) (r_x b) (r_y b) (r_z b)).
Definition x_append (v : R) : M PoseSampleBuffer unit := modify (λ b,
  mkBuffer (i b) (index b) (time b) (x b ++ [v]) (y b) (z b) (yaw b)
    (pitch b) (roll b) (r_w b) (r_x b) (r_y b) (r_z b)).
Definition y_append (v : R) : M PoseSampleBuffer unit := modify (λ b,
  mkBuffer (i b) (index b) (time b) (x b) (y b ++ [v]) (z b) (yaw b)
    (pitch b) (roll b) (r_w b) (r_x b) (r_y b) (r_z b)).
Definition z_append (v : R) : M PoseSampleBuffer unit := modify (λ b,
  mkBuffer (i b) (index b) (time b) (x b) (y b) (z b ++ [v]) (yaw b)
    (pitch b) (roll b) (r_w b) (r_x b) (r_y b) (r_z b)).
Definition yaw_append (v : R) : M PoseSampleBuffer unit := modify (λ b,
  mkBuffer (i b) (index b) (time b) (x b) (y b) (z b) (yaw b ++ [v])
    (pitch b) (roll b) (r_w b) (r_x b) (r_y b) (r_z b)).
Definition pitch_append (v : R) : M PoseSampleBuffer unit := modify (λ b,
  mkBuffer (i b) (index b) (time b) (x b) (y b) (z b) (yaw b)
    (pitch b ++ [v]) (roll b) (r_w b) (r_x b) (r_y b) (r_z b)).
Definition roll_append (v : R) : M PoseSampleBuffer unit := modify (λ b,
  mkBuffer (i b) (index b) (time b) (x b) (y b) (z b) (yaw b)
    (pitch b) (roll b ++ [v]) (r_w b) (r_x b) (r_y b) (r_z b)).
Definition r_w_append (v : R) : M PoseSampleBuffer unit := modify (λ b,
  mkBuffer (i b) (index b) (time b) (x b) (y b) (z b) (yaw b)
    (pitch b) (roll b) (r_w b ++ [v]) (r_x b) (r_y b) (r_z b)).
Definition r_x_append (v : R) : M PoseSampleBuffer unit := modify (λ b,
  mkBuffer (i b) (index b) (time b) (x b) (y b) (z b) (yaw b)
    (pitch b) (roll b) (r_w b) (r_x b ++ [v]) (r_y b) (r_z b)).
Definition r_y_append (v : R) : M PoseSampleBuffer unit := modify (λ b,
  mkBuffer (i b) (index b) (time b) (x b) (y b) (z b) (yaw b)
    (pitch b) (roll b) (r_w b) (r_x b) (r_y b ++ [v]) (r_z b)).
Definition r_z_append (v : R) : M PoseSampleBuffer unit := modify (λ b,
  mkBuffer (i b) (index b) (time b) (x b) (y b) (z b) (yaw b)
    (pitch b) (roll b) (r_w b) (r_x b) (r_y b) (r_z b ++ [v])).

(** [m[i][j]] and the fallible arithmetic, run inside a method. *)
Definition item (m : matrix) (i j : nat) : M PoseSampleBuffer R :=
  lift (at2 m i j).
Definition div (a b : R) : M PoseSampleBuffer R := lift (truediv a b).
Definition sqrt_ (a : R) : M PoseSampleBuffer R := lift (math_sqrt a).
Definition pow_ (a : R) : M PoseSampleBuffer R := lift (pow2 a).

(** [PoseSampleBuffer.append]: the argument of each [append] is evaluated
    before the column grows, and the statements run in the order of the
    source. *)
Definition append (pose_mat : matrix) (t : R) : M PoseSampleBuffer unit :=
  let* _ := time_append t in
  let* m03 := item pose_mat 0 3 in
  let* _ := x_append m03 in
  let* m13 := item pose_mat 1 3 in
  let* _ := y_append m13 in
  let* m23 := item pose_mat 2 3 in
  let* _ := z_append m23 in
  (* Euler angles *)
  let* m10 := item pose_mat 1 0 in
  let* m00 := item pose_mat 0 0 in
  let* q := div m10 m00 in
  let* _ := yaw_append (180 / PI * atan q)%R in
  let* m20 := item pose_mat 2 0 in
  let* m21 := item pose_mat 2 1 in
  let* p21 := pow_ m21 in
  let* m22 := item pose_mat 2 2 in
  let* p22 := pow_ m22 in
  let* s := sqrt_ (p21 + p22)%R in
  let* q := div (-1 * m20)%R s in
  let* _ := pitch_append (180 / PI * atan q)%R in
  let* m21 := item pose_mat 2 1 in
  let* m22 := item pose_mat 2 2 in
  let* q := div m21 m22 in
  let* _ := roll_append (180 / PI * atan q)%R in
  (* quaternion components *)
  let* m00 := item pose_mat 0 0 in
  let* m11 := item pose_mat 1 1 in
  let* m22 := item pose_mat 2 2 in
  let* s := sqrt_ (Rabs (1 + m00 + m11 + m22)) in
  let r_w := (s / 2)%R in
  let* _ := r_w_append r_w in
  let* m21 := item pose_mat 2 1 in
  let* m12 := item pose_mat 1 2 in
  let* q := div (m21 - m12)%R (4 * r_w)%R in
  let* _ := r_x_append q in
  let* m02 := item pose_mat 0 2 in
  let* m20 := item pose_mat 2 0 in
  let* q := div (m02 - m20)%R (4 * r_w)%R in
  let* _ := r_y_append q in
  let* m10 := item pose_mat 1 0 in
  let* m01 := item pose_mat 0 1 in
  let* q := div (m10 - m01)%R (4 * r_w)%R in
  r_z_append q.

Arguments append : simpl never.

(** [PoseSampleBuffer.clear] *)
Definition clear : M PoseSampleBuffer unit :=
  modify (λ _, mkBuffer 0 [] [] [] [] [] [] [] [] [] [] [] []).

(** [len(buffer)] *)
Definition len (b : PoseSampleBuffer) : nat := length (time b).

(** The eleven columns of [get_data_dict] have one length. *)
Definition lock_step (b : PoseSampleBuffer) : Prop :=
  length (x b) = length (time b) ∧ length (y b) = length (time b) ∧
  length (z b) = length (time b) ∧ length (yaw b) = length (time b) ∧
  length (pitch b) = length (time b) ∧ length (roll b) = length (time b) ∧
  length (r_w b) = length (time b) ∧ length (r_x b) = length (time b) ∧
  length (r_y b) = length (time b) ∧ length (r_z b) = length (time b).

(** What holds of the columns after any call, returned or raised: a column
    is at most as long as the columns that [append] fills before it. *)
Definition staggered (b : PoseSampleBuffer) : Prop :=
  length (r_z b) ≤ length (r_y b) ∧ length (r_y b) ≤ length (r_x b) ∧
  length (r_x b) ≤ length (r_w b) ∧ length (r_w b) ≤ length (roll b) ∧
  length (roll b) ≤ length (pitch b) ∧ length (pitch b) ≤ length (yaw b) ∧
  length (yaw b) ≤ length (z b) ∧ length (z b) ≤ length (y b) ∧
  length (y b) ≤ length (x b) ∧ length (x b) ≤ length (time b) ∧
  length (time b) ≤ S (length (r_z b)).

(** Statements that leave the time column alone. *)
Definition keeps_time {A} (c : M PoseSampleBuffer A) : Prop :=
  ∀ b, time (c b).1 = time b.

(** A caller's use of a buffer: a sequence of calls, each of which may
    raise; the caller catches the exception and goes on with the same
    object. *)
Inductive call : Type :=
  | Append (pose_mat : matrix) (t : R)
  | Clear.

Definition do_call (c : call) : M PoseSampleBuffer unit :=
  match c with
  | Append pose_mat t => append pose_mat t
  | Clear => clear
  end.

(** The matrices on which no division of [append] is by zero and no
    square overflows. *)
Definition appendable (m : matrix) : Prop :=
  is_3x4 m ∧
  (entry m 2 1 ^ 2 < overflow_bound)%R ∧
  (entry m 2 2 ^ 2 < overflow_bound)%R ∧
  entry m 0 0 ≠ 0%R ∧
  sqrt (entry m 2 1 ^ 2 + entry m 2 2 ^ 2) ≠ 0%R ∧
  entry m 2 2 ≠ 0%R ∧
  (1 + entry m 0 0 + entry m 1 1 + entry m 2 2)%R ≠ 0%R.

(** The buffer after the calls, with the outcome of each. *)
Fixpoint run (cs : list call) (b : PoseSampleBuffer)
  : PoseSampleBuffer * list (result unit) :=
  match cs with
  | [] => (b, [])
  | c :: cs' =>
      let '(b', r) := do_call c b in
      let '(b'', rs) := run cs' b' in
      (b'', r :: rs)
  end.

(** What [len] is after a sequence of calls: the calls of [append] since
    the last [clear], whether they returned or raised. *)
Definition appends_since_clear (cs : list call) (n : nat) : nat :=
  foldl (λ n c, match c with Append _ _ => S n | Clear => 0 end) n cs.

End pose_buffer.

(** ** The tracking backend (OpenVR), as far as the core uses it *)

Module openvr.
Import utils.

Definition k_unMaxTrackedDeviceCount : nat := 64.

Inductive ETrackedDeviceClass : Type :=
  | TrackedDeviceClass_Invalid
  | TrackedDeviceClass_HMD
  | TrackedDeviceClass_Controller
  | TrackedDeviceClass_GenericTracker
  | TrackedDeviceClass_TrackingReference
  | TrackedDeviceClass_DisplayRedirect.

Inductive EVREventType : Type :=
  | VREvent_TrackedDeviceActivated
  | VREvent_TrackedDeviceDeactivated
  | VREvent_Other (code : nat).

Record VREvent_t : Type := mkEvent {
  eventType : EVREventType;
  trackedDeviceIndex : nat
}.

Record TrackedDevicePose_t : Type := mkPose {
  bDeviceIsConnected : bool;
  bPoseIsValid : bool;
  mDeviceToAbsoluteTracking : matrix;
  vVelocity : list R;
  vAngularVelocity : list R
}.

(** What the registry asks of the backend: the class and the serial number
    of a slot. *)
Record IVRSystem : Type := mkVR {
  getTrackedDeviceClass : nat -> ETrackedDeviceClass;
  getSerialNumber : nat -> string
}.

(** The input state of a controller: two button masks and the axes. *)
Record VRControllerAxis_t : Type := mkAxis {
  x : R;
  y : R
}.

Record VRControllerState_t : Type := mkControllerState {
  unPacketNum : Z;
  ulButtonPressed : Z;
  ulButtonTouched : Z;
  rAxis : list VRControllerAxis_t
}.

End openvr.

(** ** device.py *)

Module device.
Import utils openvr.

(** The process environment of a handle's methods: the wall clock, read by
    [time.time()], the backend's pose snapshots, fetched by [get_pose], and
    what the method did to the outside ([time.sleep], [print]).  The [n]-th
    read of the clock returns [clock n], the [n]-th fetch [snapshots n]. *)
Record World : Type := mkWorld {
  clock : nat -> R;
  clock_reads : nat;
  snapshots : nat -> list TrackedDevicePose_t;
  fetches : nat;
  slept : list R;
  stdout : list string
}.

Definition time_time : M World R := fun w =>
  (mkWorld (clock w) (S (clock_reads w)) (snapshots w) (fetches w)
     (slept w) (stdout w),
   Ok (clock w (clock_reads w))).

Definition time_sleep (d : R) : M World unit := modify (λ w,
  mkWorld (clock w) (clock_reads w) (snapshots w) (fetches w)
    (slept w ++ [d]) (stdout w)).

Definition print (s : string) : M World unit := modify (λ w,
  mkWorld (clock w) (clock_reads w) (snapshots w) (fetches w)
    (slept w) (stdout w ++ [s])).

(** [utils.get_pose(vr_obj)] *)
Definition get_pose : M World (list TrackedDevicePose_t) := fun w =>
  (mkWorld (clock w) (clock_reads w) (snapshots w) (S (fetches w))
     (slept w) (stdout w),
   Ok (snapshots w (fetches w))).

(** Successive reads of the clock do not go back. *)
Definition clock_non_decreasing (w : World) : Prop :=
  ∀ m n : nat, m ≤ n → (clock w m <= clock w n)%R.

Definition non_decreasing (l : list R) : Prop :=
  ∀ (m n : nat) (a b : R),
    m ≤ n → l !! m = Some a → l !! n = Some b → (a <= b)%R.

(** The two handle classes of device.py. *)
Inductive handle_class : Type :=
  | TrackedDevice
  | TrackingReference.

Record Device : Type := mkDevice {
  handle : handle_class;
  index : nat;
  device_class : string
}.

(** The loop of [TrackedDevice.sample]: [n] iterations left, [rtn] the
    buffer so far.  An exception inside [rtn.append] leaves the loop. *)
Fixpoint sample_loop (self : Device) (interval sample_start : R) (n : nat)
    (rtn : pose_buffer.PoseSampleBuffer)
  : M World pose_buffer.PoseSampleBuffer :=
  match n with
  | O => ret rtn
  | S n' =>
      let* start := time_time in
      let* pose := get_pose in
      let* p := lift (getitem pose (index self)) in
      let* now := time_time in
      match pose_buffer.append (mDeviceToAbsoluteTracking p)
              (now - sample_start)%R rtn with
      | (_, Raise e) => raise e
      | (rtn', Ok _) =>
          let* now' := time_time in
          let sleep_time := (interval - (now' - start))%R in
          let* _ := (if Rlt_dec 0 sleep_time then time_sleep sleep_time
                     else ret tt) in
          sample_loop self interval sample_start n' rtn'
      end
  end.

(** [TrackedDevice.sample] *)
Definition TrackedDevice_sample (self : Device) (num_samples : Z)
    (sample_rate : R) : M World pose_buffer.PoseSampleBuffer :=
  let* interval := lift (truediv 1 sample_rate) in
  let rtn := pose_buffer.init in
  let* sample_start := time_time in
  sample_loop self interval sample_start (Z.to_nat num_samples) rtn.

(** [TrackingReference.sample] *)
Definition TrackingReference_sample (self : Device) (num_samples : Z)
    (sample_rate : R) : M World pose_buffer.PoseSampleBuffer :=
  let* _ := print
    "Warning: Tracking References do not move, sample isn't much use..." in
  TrackedDevice_sample self num_samples sample_rate.

(** [self.sample(num_samples, sample_rate)], dispatched on the class of
    the handle. *)
Definition sample (self : Device) (num_samples : Z) (sample_rate : R)
  : M World pose_buffer.PoseSampleBuffer :=
  match handle self with
  | TrackedDevice => TrackedDevice_sample self num_samples sample_rate
  | TrackingReference => TrackingReference_sample self num_samples sample_rate
  end.

(** The [pose=None] default of the pose accessors. *)
Definition pose_or_fetch (pose : option (list TrackedDevicePose_t))
  : M World (list TrackedDevicePose_t) :=
  match pose with
  | None => get_pose
  | Some pose => ret pose
  end.

(** The snapshot an accessor reads: the one supplied, or else the one the
    backend delivers next. *)
Definition snapshot_used (pose : option (list TrackedDevicePose_t))
    (w : World) : list TrackedDevicePose_t :=
  match pose with
  | None => snapshots w (fetches w)
  | Some pose => pose
  end.

Definition get_pose_euler (self : Device)
    (pose : option (list TrackedDevicePose_t)) : M World (option (list R)) :=
  let* pose := pose_or_fetch pose in
  let* p := lift (getitem pose (index self)) in
  if bPoseIsValid p then
    let* e := lift (convert_to_euler (mDeviceToAbsoluteTracking p)) in
    ret (Some e)
  else ret None.

Definition get_pose_matrix (self : Device)
    (pose : option (list TrackedDevicePose_t)) : M World (option matrix) :=
  let* pose := pose_or_fetch pose in
  let* p := lift (getitem pose (index self)) in
  if bPoseIsValid p then ret (Some (mDeviceToAbsoluteTracking p))
  else ret None.

Definition get_velocity (self : Device)
    (pose : option (list TrackedDevicePose_t)) : M World (option (list R)) :=
  let* pose := pose_or_fetch pose in
  let* p := lift (getitem pose (index self)) in
  if bPoseIsValid p then ret (Some (vVelocity p)) else ret None.

Definition get_angular_velocity (self : Device)
    (pose : option (list TrackedDevicePose_t)) : M World (option (list R)) :=
  let* pose := pose_or_fetch pose in
  let* p := lift (getitem pose (index self)) in
  if bPoseIsValid p then ret (Some (vAngularVelocity p)) else ret None.

Definition get_pose_quaternion (self : Device)
    (pose : option (list TrackedDevicePose_t)) : M World (option (list R)) :=
  let* pose := pose_or_fetch pose in
  let* p := lift (getitem pose (index self)) in
  if bPoseIsValid p then
    let* q := lift (convert_to_quaternion (mDeviceToAbsoluteTracking p)) in
    ret (Some q)
  else ret None.

(** The notice of [TrackingReference.sample]. *)
Definition warning : string :=
  "Warning: Tracking References do not move, sample isn't much use...".

(** The world with another standard output. *)
Definition set_stdout (out : list string) (w : World) : World :=
  mkWorld (clock w) (clock_reads w) (snapshots w) (fetches w) (slept w) out.

(** The values of the dict of [controller_state_to_dict]. *)
Inductive PyVal : Type :=
  | PyInt (n : Z)
  | PyFloat (r : R)
  | PyBool (b : bool).

(** [bool(n)] for an integer. *)
Definition py_bool (n : Z) : bool := negb (n =? 0)%Z.

(** [controller_state_to_dict]; [a >> n & 1] is [(a >> n) & 1]. *)
Definition controller_state_to_dict (pControllerState : VRControllerState_t)
  : result (gmap string PyVal) :=
  let d := ∅ in
  let d := <["unPacketNum" := PyInt (unPacketNum pControllerState)]> d in
  a1 ← getitem (rAxis pControllerState) 1;
  let d := <["trigger" := PyFloat (x a1)]> d in
  a0 ← getitem (rAxis pControllerState) 0;
  let d := <["trackpad_x" := PyFloat (x a0)]> d in
  a0' ← getitem (rAxis pControllerState) 0;
  let d := <["trackpad_y" := PyFloat (y a0')]> d in
  let d :=
    <["ulButtonPressed" := PyInt (ulButtonPressed pControllerState)]> d in
  let d :=
    <["ulButtonTouched" := PyInt (ulButtonTouched pControllerState)]> d in
  let d := <["menu_button" := PyBool (py_bool
    (Z.land (Z.shiftr (ulButtonPressed pControllerState) 1) 1))]> d in
  let d := <["trackpad_pressed" := PyBool (py_bool
    (Z.land (Z.shiftr (ulButtonPressed pControllerState) 32) 1))]> d in
  let d := <["trackpad_touched" := PyBool (py_bool
    (Z.land (Z.shiftr (ulButtonTouched pControllerState) 32) 1))]> d in
  let d := <["grip_button" := PyBool (py_bool
    (Z.land (Z.shiftr (ulButtonPressed pControllerState) 2) 1))]> d in
  mret d.

(** [get_controller_inputs]; [getControllerState] is the backend's answer
    for a slot, a status and a state, of which the status is dropped. *)
Definition get_controller_inputs
    (getControllerState : nat -> bool * VRControllerState_t) (self : Device)
  : result (gmap string PyVal) :=
  let '(result, state) := getControllerState (index self) in
  controller_state_to_dict state.

(** The store behind [get_serial]: the cache that [lru_cache(maxsize=None)]
    keeps for the method, keyed by the handle object (objects are told
    apart by an identity [oid], as the class defines no equality), and the
    backend's answers to the successive queries of the serial number. *)
Record SerialStore : Type := mkSerialStore {
  serial_cache : gmap nat string;
  serial_queries : nat;
  serial_answers : nat -> nat -> result string
}.

(** [get_serial], for the handle object [oid]. *)
Definition get_serial (oid : nat) (self : Device) : M SerialStore string :=
  fun st =>
  match serial_cache st !! oid with
  | Some v => (st, Ok v)
  | None =>
      match serial_answers st (serial_queries st) (index self) with
      | Ok v =>
          (mkSerialStore (<[oid := v]> (serial_cache st))
             (S (serial_queries st)) (serial_answers st), Ok v)
      | Raise e =>
          (mkSerialStore (serial_cache st) (S (serial_queries st))
             (serial_answers st), Raise e)
      end
  end.

End device.

(** ** tracker.py *)

Module tracker.
Import utils openvr device.

Record Tracker : Type := mkTracker {
  object_names : gmap string (list string);
  devices : gmap string Device;
  device_index_map : gmap nat string
}.

Definition set_object_names (f : gmap string (list string) ->
    gmap string (list string)) : M Tracker unit := modify (λ t,
  mkTracker (f (object_names t)) (devices t) (device_index_map t)).
Definition set_devices (f : gmap string Device -> gmap string Device)
  : M Tracker unit := modify (λ t,
  mkTracker (object_names t) (f (devices t)) (device_index_map t)).
Definition set_device_index_map (f : gmap nat string -> gmap nat string)
  : M Tracker unit := modify (λ t,
  mkTracker (object_names t) (devices t) (f (device_index_map t))).

(** [self.devices[k]] and [self.object_names[k]] *)
Definition devices_get (k : string) : M Tracker Device :=
  fun t => (t, dict_get (devices t) k).
Definition object_names_get (k : string) : M Tracker (list string) :=
  fun t => (t, dict_get (object_names t) k).

(** The state at the start of [__init__]. *)
Definition empty : Tracker :=
  mkTracker
    (<["Tracking Reference" := []]> (<["HMD" := []]>
      (<["Controller" := []]> (<["Tracker" := []]> ∅))))
    ∅ ∅.

(** [self.object_names[cls].append(device_name)] *)
Definition object_names_append (cls device_name : string) : M Tracker unit :=
  let* names := object_names_get cls in
  set_object_names <[cls := names ++ [device_name]]>.

(** One branch of [add_tracked_device]; the four branches of the source
    differ in the name prefix, the class string and the handle class. *)
Definition add_as (prefix cls : string) (h : handle_class) (i : nat)
  : M Tracker unit :=
  let* names := object_names_get cls in
  let device_name := prefix +:+ pretty (length names + 1) in
  let* _ := object_names_append cls device_name in
  let* _ := set_devices <[device_name := mkDevice h i cls]> in
  set_device_index_map <[i := device_name]>.

Definition add_tracked_device (vr : IVRSystem) (tracked_device_index : nat)
  : M Tracker unit :=
  let i := tracked_device_index in
  match getTrackedDeviceClass vr i with
  | TrackedDeviceClass_Controller =>
      add_as "controller_" "Controller" TrackedDevice i
  | TrackedDeviceClass_HMD =>
      add_as "hmd_" "HMD" TrackedDevice i
  | TrackedDeviceClass_GenericTracker =>
      add_as "tracker_" "Tracker" TrackedDevice i
  | TrackedDeviceClass_TrackingReference =>
      add_as "tracking_reference_" "Tracking Reference" TrackingReference i
  | _ => ret tt
  end.

(** [l.remove(x)]: drops the first occurrence, [ValueError] when there is
    none. *)
Fixpoint list_remove (x : string) (l : list string) : result (list string) :=
  match l with
  | [] => Raise ValueError
  | y :: l' =>
      if decide (y = x) then Ok l'
      else l'' ← list_remove x l'; mret (y :: l'')
  end.

(** The exception of [remove_tracked_device], the specification's
    [InvalidDeviceIndex]. *)
Definition InvalidDeviceIndex (tracked_device_index : nat) : exn :=
  PyException ("Tracked device index " +:+ pretty tracked_device_index
               +:+ " not valid. Not removing.").

Definition remove_tracked_device (tracked_device_index : nat)
  : M Tracker unit := fun t =>
  match device_index_map t !! tracked_device_index with
  | Some device_name =>
      (let* d := devices_get device_name in
       let* names := object_names_get (device_class d) in
       let* names' := lift (list_remove device_name names) in
       let* _ := set_object_names <[device_class d := names']> in
       let* _ := set_device_index_map (delete tracked_device_index) in
       let* _ := devices_get device_name in
       set_devices (delete device_name)) t
  | None => raise (InvalidDeviceIndex tracked_device_index) t
  end.

(** The body of the [for] loop of [rename_device], for the indices [idxs]. *)
Fixpoint rename_loop (old_device_name new_device_name : string)
    (idxs : list nat) : M Tracker unit :=
  match idxs with
  | [] => ret tt
  | i :: idxs' =>
      let* d := devices_get new_device_name in
      let* names := object_names_get (device_class d) in
      let* name := lift (getitem names i) in
      let* _ := (if decide (name = old_device_name)
                 then set_object_names
                        <[device_class d := <[i := new_device_name]> names]>
                 else ret tt) in
      rename_loop old_device_name new_device_name idxs'
  end.

Definition rename_device (old_device_name new_device_name : string)
  : M Tracker unit :=
  (* self.devices.pop(old_device_name) *)
  let* d := devices_get old_device_name in
  let* _ := set_devices (delete old_device_name) in
  let* _ := set_devices <[new_device_name := d]> in
  let* d' := devices_get new_device_name in
  let* names := object_names_get (device_class d') in
  rename_loop old_device_name new_device_name (seq 0 (length names)).

(** [poll_vr_events], for the events the backend's queue delivers. *)
Fixpoint poll_vr_events (vr : IVRSystem) (events : list VREvent_t)
  : M Tracker unit :=
  match events with
  | [] => ret tt
  | event :: events' =>
      let* _ :=
        match eventType event with
        | VREvent_TrackedDeviceActivated =>
            add_tracked_device vr (trackedDeviceIndex event)
        | VREvent_TrackedDeviceDeactivated =>
            fun t =>
              if decide (is_Some (device_index_map t
                                    !! trackedDeviceIndex event))
              then remove_tracked_device (trackedDeviceIndex event) t
              else ret tt t
        | VREvent_Other _ => ret tt
        end in
      poll_vr_events vr events'
  end.

(** An entry of the configuration file's [devices] list. *)
Record ConfigDevice : Type := mkConfigDevice {
  serial : string;
  name : string;
  type : string
}.

(** The inner loop of [__init__] with a configuration, for slot [i]. *)
Fixpoint init_config_slot (device_serial : string) (i : nat)
    (config : list ConfigDevice) : M Tracker unit :=
  match config with
  | [] => ret tt
  | device :: config' =>
      let* _ :=
        (if decide (device_serial = serial device) then
           let device_name := name device in
           let* _ := object_names_append (type device) device_name in
           if decide (type device = "Tracking Reference") then
             set_devices
               <[device_name := mkDevice TrackingReference i (type device)]>
           else
             set_devices
               <[device_name := mkDevice TrackedDevice i (type device)]>
         else ret tt) in
      init_config_slot device_serial i config'
  end.

(** The loop over the slots [idxs] of [__init__]. *)
Fixpoint init_slots (vr : IVRSystem) (poses : list TrackedDevicePose_t)
    (config : option (list ConfigDevice)) (idxs : list nat) : M Tracker unit :=
  match idxs with
  | [] => ret tt
  | i :: idxs' =>
      let* p := lift (getitem poses i) in
      let* _ :=
        (if bDeviceIsConnected p then
           match config with
           | Some devs => init_config_slot (getSerialNumber vr i) i devs
           | None => add_tracked_device vr i
           end
         else ret tt) in
      init_slots vr poses config idxs'
  end.

(** [Tracker(configfile_path)]: [poses] is the snapshot fetched by the
    constructor, [config] the parsed content of the configuration file when
    a path is given. *)
Definition init (vr : IVRSystem) (poses : list TrackedDevicePose_t)
    (config : option (list ConfigDevice)) : Tracker * result unit :=
  init_slots vr poses config (seq 0 k_unMaxTrackedDeviceCount) empty.

(** The registry operations of a caller, and a run of them; an exception
    is caught by the caller, who goes on with the same registry. *)
Inductive op : Type :=
  | AddTrackedDevice (tracked_device_index : nat)
  | RemoveTrackedDevice (tracked_device_index : nat)
  | RenameDevice (old_device_name new_device_name : string)
  | PollVrEvents (events : list VREvent_t).

Definition do_op (vr : IVRSystem) (o : op) : M Tracker unit :=
  match o with
  | AddTrackedDevice i => add_tracked_device vr i
  | RemoveTrackedDevice i => remove_tracked_device i
  | RenameDevice old new => rename_device old new
  | PollVrEvents events => poll_vr_events vr events
  end.

Fixpoint run (vr : IVRSystem) (os : list op) (t : Tracker)
  : Tracker * list (result unit) :=
  match os with
  | [] => (t, [])
  | o :: os' =>
      let '(t', r) := do_op vr o t in
      let '(t'', rs) := run vr os' t' in
      (t'', r :: rs)
  end.

(** The registry invariant of the specification: a tracked slot maps to a
    name that has a handle, and a name is in the list of a class exactly
    when its handle has that class.  (That a name has one handle and a slot
    one name is what a dict gives.) *)
Definition slots_named (t : Tracker) : Prop :=
  ∀ i device_name, device_index_map t !! i = Some device_name →
    is_Some (devices t !! device_name).

Definition class_lists_exact (t : Tracker) : Prop :=
  ∀ cls names, object_names t !! cls = Some names →
    ∀ device_name, device_name ∈ names ↔
      ∃ d, devices t !! device_name = Some d ∧ device_class d = cls.

Definition registry_invariant (t : Tracker) : Prop :=
  slots_named t ∧ class_lists_exact t.

(** What the add and remove paths keep besides: a handle's class is a key
    of [object_names], no list names a device twice, and no two slots share
    a name. *)
Definition classes_listed (t : Tracker) : Prop :=
  ∀ device_name d, devices t !! device_name = Some d →
    is_Some (object_names t !! device_class d).

Definition lists_NoDup (t : Tracker) : Prop :=
  ∀ cls names, object_names t !! cls = Some names → NoDup names.

Definition slots_injective (t : Tracker) : Prop :=
  ∀ i j device_name,
    device_index_map t !! i = Some device_name →
    device_index_map t !! j = Some device_name → i = j.

Definition well_formed (t : Tracker) : Prop :=
  registry_invariant t ∧ classes_listed t ∧ lists_NoDup t ∧
  slots_injective t.

(** The name prefix that [add_tracked_device] uses for a class string. *)
Definition name_prefix (cls : string) : option string :=
  if decide (cls = "Controller") then Some "controller_"
  else if decide (cls = "HMD") then Some "hmd_"
  else if decide (cls = "Tracker") then Some "tracker_"
  else if decide (cls = "Tracking Reference") then Some "tracking_reference_"
  else None.

(** The names [prefix1 .. prefixn]. *)
Definition numbered (prefix : string) (n : nat) : list string :=
  (λ k : nat, prefix +:+ pretty k) <$> seq 1 n.

(** The lists of a registry that has only ever added devices. *)
Definition sequential (t : Tracker) : Prop :=
  (∀ cls prefix, name_prefix cls = Some prefix →
     ∃ names, object_names t !! cls = Some names ∧
              names = numbered prefix (length names)) ∧
  (∀ cls, is_Some (object_names t !! cls) → is_Some (name_prefix cls)).

(** [is_device_connected] *)
Definition is_device_connected (t : Tracker) (device_name : string) : bool :=
  bool_decide (is_Some (devices t !! device_name)).

(** The loop of [get_devices_by_type]: [found] is the list built so far. *)
Fixpoint get_devices_loop (t : Tracker) (names : list string)
    (found : list Device) : result (list Device) :=
  match names with
  | [] => Ok found
  | device_name :: names' =>
      d ← dict_get (devices t) device_name;
      get_devices_loop t names' (found ++ [d])
  end.

(** [get_devices_by_type]; [self.object_names.get(device_type, [])] is the
    empty list for a type that is no key. *)
Definition get_devices_by_type (t : Tracker) (device_type : string)
  : result (list Device) :=
  get_devices_loop t (default [] (object_names t !! device_type)) [].

(** The class string and the handle class that [add_tracked_device] gives
    to a backend class, and the name prefix that goes with them. *)
Definition class_entry (c : ETrackedDeviceClass)
  : option (string * string * handle_class) :=
  match c with
  | TrackedDeviceClass_Controller =>
      Some ("controller_", "Controller", TrackedDevice)
  | TrackedDeviceClass_HMD => Some ("hmd_", "HMD", TrackedDevice)
  | TrackedDeviceClass_GenericTracker =>
      Some ("tracker_", "Tracker", TrackedDevice)
  | TrackedDeviceClass_TrackingReference =>
      Some ("tracking_reference_", "Tracking Reference", TrackingReference)
  | _ => None
  end.

(** The name that [add_tracked_device] would give to slot [i] now. *)
Definition next_name (vr : IVRSystem) (i : nat) (t : Tracker)
  : option string :=
  match class_entry (getTrackedDeviceClass vr i) with
  | Some (prefix, cls, _) =>
      names ← object_names t !! cls;
      Some (prefix +:+ pretty (length names + 1))
  | None => None
  end.

(** A tracked slot leads to a handle for that slot, of the class the
    backend reports for it; and every handle is that of a tracked slot. *)
Definition slots_match (vr : IVRSystem) (t : Tracker) : Prop :=
  ∀ i device_name, device_index_map t !! i = Some device_name →
    ∃ d prefix, devices t !! device_name = Some d ∧ index d = i ∧
      class_entry (getTrackedDeviceClass vr i)
        = Some (prefix, device_class d, handle d).

Definition no_orphans (t : Tracker) : Prop :=
  ∀ device_name d, devices t !! device_name = Some d →
    ∃ i, device_index_map t !! i = Some device_name.

(** A list of names with every [old_device_name] replaced. *)
Definition replace_name (old_device_name new_device_name : string)
    (names : list string) : list string :=
  (λ n, if decide (n = old_device_name) then new_device_name else n)
    <$> names.

(** The slots that the constructor adds when it has no configuration: those
    that the snapshot reports as connected and whose class
    [add_tracked_device] knows. *)
Definition listed_slot (vr : IVRSystem) (poses : list TrackedDevicePose_t)
    (i : nat) : Prop :=
  ∃ p, poses !! i = Some p ∧ bDeviceIsConnected p = true ∧
       is_Some (class_entry (getTrackedDeviceClass vr i)).

End tracker.

(** * Properties *)

(** ** Floats *)

Lemma overflow_bound_gt_1 : (1 < overflow_bound)%R.
Proof.
  unfold overflow_bound.
  replace (2 ^ 1024)%R with (2 ^ 970 * 2 ^ 54)%R
    by (rewrite <- pow_add; reflexivity).
  assert (Hp : (1 <= 2 ^ 970)%R) by (apply pow_R1_Rle; lra).
  assert (H54 : (2 <= 2 ^ 54)%R).
  { replace 2%R with (2 ^ 1)%R at 1 by lra. apply Rle_pow; [lra | lia]. }
  nra.
Qed.

(** The squares of the entries [0], [1] and [-1] fit a float. *)
Lemma small_squares :
  (0 ^ 2 < overflow_bound ∧ 1 ^ 2 < overflow_bound ∧
   (-1) ^ 2 < overflow_bound)%R.
Proof. pose proof overflow_bound_gt_1. repeat split; lra. Qed.

Ltac small_square :=
  unfold utils.entry, utils.mat34; cbn [nth];
  first [ apply (proj1 small_squares)
        | apply (proj1 (proj2 small_squares))
        | apply (proj2 (proj2 small_squares)) ].

(** ** Coordinate transform *)

Section transform.
Import utils.
Local Open Scope R_scope.

Lemma is_3x4_mat34 a0 a1 a2 a3 b0 b1 b2 b3 c0 c1 c2 c3 :
  is_3x4 (mat34 a0 a1 a2 a3 b0 b1 b2 b3 c0 c1 c2 c3).
Proof. split; [reflexivity | repeat constructor]. Qed.

Lemma is_3x4_inv (m : matrix) :
  is_3x4 m →
  m = mat34 (entry m 0 0) (entry m 0 1) (entry m 0 2) (entry m 0 3)
            (entry m 1 0) (entry m 1 1) (entry m 1 2) (entry m 1 3)
            (entry m 2 0) (entry m 2 1) (entry m 2 2) (entry m 2 3).
Proof.
  intros [Hlen Hrows].
  destruct m as [|r0 [|r1 [|r2 [|]]]]; try discriminate Hlen.
  inversion Hrows as [|? ? H0 Hrows1]; subst.
  inversion Hrows1 as [|? ? H1 Hrows2]; subst.
  inversion Hrows2 as [|? ? H2 _]; subst.
  destruct r0 as [|? [|? [|? [|? [|]]]]]; try discriminate H0.
  destruct r1 as [|? [|? [|? [|? [|]]]]]; try discriminate H1.
  destruct r2 as [|? [|? [|? [|? [|]]]]]; try discriminate H2.
  reflexivity.
Qed.

Lemma at2_entry (m : matrix) (i j : nat) :
  is_3x4 m → (i < 3)%nat → (j < 4)%nat → at2 m i j = Ok (entry m i j).
Proof.
  intros Hm Hi Hj. rewrite (is_3x4_inv m Hm).
  destruct i as [|[|[|]]]; [| | |lia];
    (destruct j as [|[|[|[|]]]]; [| | | |lia]); reflexivity.
Qed.

Lemma math_sqrt_nonneg (a : R) : 0 <= a → math_sqrt a = Ok (sqrt a).
Proof.
  intros Ha. unfold math_sqrt. destruct (Rlt_dec a 0); [lra | reflexivity].
Qed.

Lemma sum_squares_nonneg (a b : R) : 0 <= a ^ 2 + b ^ 2.
Proof. nra. Qed.

Lemma truediv_zero (a b : R) : b = 0 → truediv a b = Raise ZeroDivisionError.
Proof.
  intros Hb. unfold truediv. destruct (Req_dec_T b 0); [reflexivity | lra].
Qed.

Lemma truediv_nonzero (a b : R) : b <> 0 → truediv a b = Ok (a / b).
Proof.
  intros Hb. unfold truediv. destruct (Req_dec_T b 0); [lra | reflexivity].
Qed.

Lemma hypot_scale (x y : R) :
  x <> 0 → sqrt (x ^ 2 + y ^ 2) = Rabs x * sqrt (1 + (y / x)²).
Proof.
  intros Hx.
  replace (x ^ 2 + y ^ 2) with (x² * (1 + (y / x)²))
    by (unfold Rsqr; field; exact Hx).
  rewrite sqrt_mult; [| apply Rle_0_sqr | pose proof (Rle_0_sqr (y / x)); lra].
  by rewrite sqrt_Rsqr_abs.
Qed.

Lemma sqrt_one_plus_sqr_pos (t : R) : 0 < sqrt (1 + t²).
Proof. apply sqrt_lt_R0. pose proof (Rle_0_sqr t). lra. Qed.

(** [math_atan2 y x] is the angle of the point [(x, y)], taken in
    [(-pi, pi]]. *)
Lemma math_atan2_polar (y x : R) :
  x <> 0 ∨ y <> 0 →
  sqrt (x ^ 2 + y ^ 2) * cos (math_atan2 y x) = x ∧
  sqrt (x ^ 2 + y ^ 2) * sin (math_atan2 y x) = y.
Proof.
  intros Hxy. unfold math_atan2.
  pose proof (sqrt_one_plus_sqr_pos (y / x)) as Hs.
  destruct (Rlt_dec 0 x) as [Hpos|Hnpos].
  - rewrite hypot_scale, cos_atan, sin_atan, Rabs_pos_eq by lra.
    split; field; lra.
  - destruct (Rlt_dec x 0) as [Hneg|Hnneg].
    + assert (Hcos : ∀ a, cos (a - PI) = - cos a).
      { intros a. rewrite cos_minus, cos_PI, sin_PI. ring. }
      assert (Hsin : ∀ a, sin (a - PI) = - sin a).
      { intros a. rewrite sin_minus, cos_PI, sin_PI. ring. }
      rewrite hypot_scale, Rabs_left by lra.
      destruct (Rle_dec 0 y);
        rewrite ?neg_cos, ?neg_sin, ?Hcos, ?Hsin, cos_atan, sin_atan;
        split; field; lra.
    + assert (x = 0) as -> by lra.
      replace (0 ^ 2 + y ^ 2) with (y ^ 2) by ring.
      destruct (Rlt_dec 0 y).
      * rewrite sqrt_pow2, cos_PI2, sin_PI2 by lra. lra.
      * destruct (Rlt_dec y 0); [| lra].
        replace (- PI / 2) with (- (PI / 2)) by lra.
        rewrite cos_neg, sin_neg, cos_PI2, sin_PI2.
        replace (y ^ 2) with ((- y) ^ 2) by ring.
        rewrite sqrt_pow2 by lra. lra.
Qed.


Lemma math_atan2_pos (y x : R) : 0 < x → math_atan2 y x = atan (y / x).
Proof.
  intros Hx. unfold math_atan2. destruct (Rlt_dec 0 x); [reflexivity | lra].
Qed.

Lemma math_atan2_neg (y x : R) :
  x < 0 → 0 <= y → math_atan2 y x = atan (y / x) + PI.
Proof.
  intros Hx Hy. unfold math_atan2.
  destruct (Rlt_dec 0 x); [lra |].
  destruct (Rlt_dec x 0); [| lra].
  destruct (Rle_dec 0 y); [reflexivity | lra].
Qed.

Lemma pow2_ok (a : R) : a ^ 2 < overflow_bound → pow2 a = Ok (a ^ 2).
Proof.
  intros Ha. unfold pow2.
  destruct (Rle_dec overflow_bound (a ^ 2)); [lra | reflexivity].
Qed.


(** The squares of [convert_to_euler] and [append] do not overflow on the
    pose of a rigid body: the entries of a rotation are at most one. *)
Lemma rotation_squares_bounded (m : matrix) :
  is_rotation m →
  entry m 2 1 ^ 2 < overflow_bound ∧ entry m 2 2 ^ 2 < overflow_bound.
Proof.
  intros (_ & _ & Hrow & _). cbv zeta in Hrow.
  pose proof overflow_bound_gt_1.
  pose proof (Rle_0_sqr (entry m 2 0)) as H0.
  pose proof (Rle_0_sqr (entry m 2 1)) as H1.
  pose proof (Rle_0_sqr (entry m 2 2)) as H2.
  unfold Rsqr in *. split; nra.
Qed.

Lemma convert_to_euler_3x4 (m : matrix) :
  is_3x4 m →
  entry m 2 1 ^ 2 < overflow_bound →
  entry m 2 2 ^ 2 < overflow_bound →
  convert_to_euler m =
    Ok [ entry m 0 3; entry m 1 3; entry m 2 3;
         180 / PI * math_atan2 (entry m 1 0) (entry m 0 0);
         180 / PI * math_atan2 (- entry m 2 0)
                      (sqrt (entry m 2 1 ^ 2 + entry m 2 2 ^ 2));
         180 / PI * math_atan2 (entry m 2 1) (entry m 2 2) ].
Proof.
  intros Hm H21 H22. unfold convert_to_euler.
  rewrite !(at2_entry m) by (done || lia). cbn [mbind result_bind].
  rewrite !pow2_ok by assumption. cbn [mbind result_bind].
  rewrite math_sqrt_nonneg by apply sum_squares_nonneg.
  reflexivity.
Qed.


Ltac rotation_entries :=
  unfold is_rotation, entry, identity_matrix, quarter_turn, obtuse_turn,
    half_turn, mat34; cbn [nth]; repeat split; lra.



Lemma obtuse_turn_rotation : is_rotation obtuse_turn.
Proof. rotation_entries. Qed.

Lemma half_turn_rotation : is_rotation half_turn.
Proof. rotation_entries. Qed.





(** A 3x4 matrix whose rotation block has trace [-1] makes
    [convert_to_quaternion] divide by zero. *)
Lemma convert_to_quaternion_degenerate (m : matrix) :
  is_3x4 m →
  1 + entry m 0 0 + entry m 1 1 + entry m 2 2 = 0 →
  convert_to_quaternion m = Raise ZeroDivisionError.
Proof.
  intros Hm Htr. unfold convert_to_quaternion.
  rewrite !(at2_entry m) by (done || lia). cbn [mbind result_bind].
  rewrite Htr, Rabs_R0.
  rewrite math_sqrt_nonneg by lra. cbn [mbind result_bind].
  rewrite sqrt_0, (truediv_zero (entry m 2 1 - entry m 1 2)) by lra.
  reflexivity.
Qed.

(** C8: there is a 3x4 pose matrix, the pose of a rigid body, with
    [1 + m00 + m11 + m22 = 0] on which [convert_to_quaternion] raises
    [ZeroDivisionError]: the division by [4 * r_w] is not guarded. *)
Theorem convert_to_quaternion_division_by_zero :
  ∃ m : matrix,
    is_3x4 m ∧ is_rotation m ∧
    1 + entry m 0 0 + entry m 1 1 + entry m 2 2 = 0 ∧
    convert_to_quaternion m = Raise ZeroDivisionError.
Proof.
  exists half_turn.
  assert (Htr : 1 + entry half_turn 0 0 + entry half_turn 1 1
                + entry half_turn 2 2 = 0).
  { unfold entry, half_turn, mat34. cbn [nth]. lra. }
  split; [apply is_3x4_mat34 |]. split; [apply half_turn_rotation |].
  split; [exact Htr |].
  apply convert_to_quaternion_degenerate; [apply is_3x4_mat34 | exact Htr].
Qed.

End transform.

(** ** Sample buffer *)

Section buffer.
Import utils pose_buffer.
Local Open Scope R_scope.

(** Running a method one statement at a time. *)
Lemma bind_modify {S B} (f : S → S) (k : unit → M S B) (s : S) :
  bind (modify f) k s = k tt (f s).
Proof. reflexivity. Qed.

Lemma bind_lift_Ok {S A B} (a : A) (k : A → M S B) (s : S) :
  bind (lift (Ok a)) k s = k a s.
Proof. reflexivity. Qed.

Lemma bind_lift_Raise {S A B} (e : exn) (k : A → M S B) (s : S) :
  bind (lift (Raise e)) k s = (s, Raise e).
Proof. reflexivity. Qed.

Ltac unfold_append :=
  unfold append, item, div, sqrt_, pow_, time_append, x_append, y_append,
    z_append, yaw_append, pitch_append, roll_append, r_w_append, r_x_append,
    r_y_append, r_z_append.

Ltac buffer_fields :=
  cbn [i index time x y z yaw pitch roll r_w r_x r_y r_z].

(** The state and the outcome of [append] on a 3x4 matrix whose squares do
    not overflow and whose four divisors are not zero. *)
Lemma append_ok (m : matrix) (t : R) (b : PoseSampleBuffer) :
  is_3x4 m →
  entry m 2 1 ^ 2 < overflow_bound →
  entry m 2 2 ^ 2 < overflow_bound →
  entry m 0 0 <> 0 →
  sqrt (entry m 2 1 ^ 2 + entry m 2 2 ^ 2) <> 0 →
  entry m 2 2 <> 0 →
  1 + entry m 0 0 + entry m 1 1 + entry m 2 2 <> 0 →
  let r_w' := sqrt (Rabs (1 + entry m 0 0 + entry m 1 1 + entry m 2 2)) / 2 in
  append m t b =
    (mkBuffer (i b) (index b) (time b ++ [t])
       (x b ++ [entry m 0 3]) (y b ++ [entry m 1 3]) (z b ++ [entry m 2 3])
       (yaw b ++ [180 / PI * atan (entry m 1 0 / entry m 0 0)])
       (pitch b ++ [180 / PI * atan (-1 * entry m 2 0 /
                      sqrt (entry m 2 1 ^ 2 + entry m 2 2 ^ 2))])
       (roll b ++ [180 / PI * atan (entry m 2 1 / entry m 2 2)])
       (r_w b ++ [r_w'])
       (r_x b ++ [(entry m 2 1 - entry m 1 2) / (4 * r_w')])
       (r_y b ++ [(entry m 0 2 - entry m 2 0) / (4 * r_w')])
       (r_z b ++ [(entry m 1 0 - entry m 0 1) / (4 * r_w')]),
     Ok tt).
Proof.
  intros Hm Hp21 Hp22 H00 Hs H22 Htr r_w'.
  assert (Hw : 4 * r_w' <> 0).
  { unfold r_w'. intros Hz.
    apply (Rabs_no_R0 _ Htr), sqrt_eq_0; [apply Rabs_pos | lra]. }
  unfold_append. rewrite !(at2_entry m) by (done || lia).
  repeat lazymatch goal with
  | |- bind (modify _) _ _ = _ =>
      rewrite bind_modify; cbv beta; buffer_fields
  | |- bind (lift (Ok _)) _ _ = _ => rewrite bind_lift_Ok; cbv beta
  | |- bind (lift (pow2 _)) _ _ = _ => rewrite pow2_ok by assumption
  | |- bind (lift (math_sqrt _)) _ _ = _ =>
      rewrite math_sqrt_nonneg
        by (apply sum_squares_nonneg || apply Rabs_pos)
  | |- bind (lift (truediv _ _)) _ _ = _ =>
      rewrite truediv_nonzero by assumption
  end.
  reflexivity.
Qed.

Lemma keeps_time_bind {A B} (c : M PoseSampleBuffer A)
    (k : A → M PoseSampleBuffer B) :
  keeps_time c → (∀ a, keeps_time (k a)) → keeps_time (bind c k).
Proof.
  intros Hc Hk b. unfold bind. specialize (Hc b).
  destruct (c b) as [b' [a|e]]; cbn in *; [| exact Hc].
  by rewrite Hk.
Qed.

Lemma keeps_time_lift {A} (r : result A) :
  keeps_time (lift r : M PoseSampleBuffer A).
Proof. by intros b. Qed.

(** Whatever the outcome, [append] has recorded the time stamp. *)
Lemma append_time (m : matrix) (t : R) (b : PoseSampleBuffer) :
  time (append m t b).1 = time b ++ [t].
Proof.
  unfold append. unfold time_append at 1. rewrite bind_modify. cbv beta.
  lazymatch goal with
  | |- time (?c ?s).1 = _ => assert (Hrest : keeps_time c)
  end.
  { repeat (apply keeps_time_bind; [| intros ?]); by intros ?. }
  by rewrite Hrest.
Qed.

(** A call that returns keeps the columns in lock-step. *)
Lemma append_lock_step (m : matrix) (t : R) (b b' : PoseSampleBuffer) :
  append m t b = (b', Ok tt) → lock_step b → lock_step b'.
Proof.
  unfold_append.
  repeat lazymatch goal with
  | |- bind (modify _) _ _ = _ → _ =>
      rewrite bind_modify; cbv beta; buffer_fields
  | |- bind (lift (Ok _)) _ _ = _ → _ => rewrite bind_lift_Ok; cbv beta
  | |- bind (lift ?r) _ _ = _ → _ =>
      destruct r;
        [ rewrite bind_lift_Ok; cbv beta
        | rewrite bind_lift_Raise; intros; discriminate ]
  end.
  unfold modify. intros [= <-]. unfold lock_step. buffer_fields.
  rewrite !length_app. cbn [length].
  intros (-> & -> & -> & -> & -> & -> & -> & -> & -> & ->). done.
Qed.

(** A call that raises leaves the columns staggered by at most one. *)
Lemma append_staggered (m : matrix) (t : R) (b : PoseSampleBuffer) :
  lock_step b → staggered (append m t b).1.
Proof.
  intros (Hx & Hy & Hz & Hyaw & Hpitch & Hroll & Hw & Hrx & Hry & Hrz).
  unfold_append.
  repeat lazymatch goal with
  | |- staggered (bind (modify _) _ _).1 =>
      rewrite bind_modify; cbv beta; buffer_fields
  | |- staggered (bind (lift (Ok _)) _ _).1 =>
      rewrite bind_lift_Ok; cbv beta
  | |- staggered (bind (lift ?r) _ _).1 =>
      destruct r;
        [ rewrite bind_lift_Ok; cbv beta
        | rewrite bind_lift_Raise; unfold staggered; cbn [fst];
          buffer_fields; rewrite ?length_app; cbn [length]; lia ]
  end.
  unfold modify, staggered. cbn [fst]. buffer_fields.
  rewrite ?length_app. cbn [length]. lia.
Qed.

Lemma clear_lock_step (b : PoseSampleBuffer) : lock_step (clear b).1.
Proof. unfold lock_step. cbn. done. Qed.

Lemma run_lock_step (cs : list call) (b : PoseSampleBuffer) :
  lock_step b →
  Forall (λ r, r = Ok tt) (run cs b).2 →
  lock_step (run cs b).1.
Proof.
  revert b. induction cs as [|c cs IH]; intros b Hb Hok; [exact Hb |].
  cbn [run] in *. destruct (do_call c b) as [b' r] eqn:Hc.
  destruct (run cs b') as [b'' rs] eqn:Hrun. cbn in *.
  inversion Hok as [|? ? Hr Hrs]; subst.
  specialize (IH b'). rewrite Hrun in IH. apply IH; [| exact Hrs].
  destruct c as [m t|]; cbn in Hc.
  - by eapply append_lock_step.
  - replace b' with (clear b).1 by (by rewrite Hc). apply clear_lock_step.
Qed.

Lemma init_lock_step : lock_step init.
Proof. unfold lock_step. cbn. done. Qed.

(** [append] raises on the quarter turn, after four columns have grown. *)
Lemma append_quarter_turn :
  append quarter_turn 0 init =
    (mkBuffer 0 [] [0] [0] [0] [0] [] [] [] [] [] [] [],
     Raise ZeroDivisionError).
Proof.
  unfold_append.
  rewrite !(at2_entry quarter_turn) by (apply is_3x4_mat34 || lia).
  repeat lazymatch goal with
  | |- bind (modify _) _ _ = _ =>
      rewrite bind_modify; cbv beta; buffer_fields
  | |- bind (lift (Ok _)) _ _ = _ => rewrite bind_lift_Ok; cbv beta
  end.
  rewrite truediv_zero by reflexivity.
  rewrite bind_lift_Raise. reflexivity.
Qed.

Lemma identity_divisors :
  entry identity_matrix 2 1 ^ 2 < overflow_bound ∧
  entry identity_matrix 2 2 ^ 2 < overflow_bound ∧
  entry identity_matrix 0 0 <> 0 ∧
  sqrt (entry identity_matrix 2 1 ^ 2 + entry identity_matrix 2 2 ^ 2) <> 0 ∧
  entry identity_matrix 2 2 <> 0 ∧
  1 + entry identity_matrix 0 0 + entry identity_matrix 1 1
    + entry identity_matrix 2 2 <> 0.
Proof.
  unfold entry, identity_matrix, mat34. cbn [nth].
  replace (0 ^ 2 + 1 ^ 2) with 1 by lra. rewrite sqrt_1.
  pose proof overflow_bound_gt_1.
  repeat split; lra.
Qed.

(** [append] returns on the identity matrix. *)
Lemma append_identity_ok (t : R) (b : PoseSampleBuffer) :
  (append identity_matrix t b).2 = Ok tt.
Proof.
  destruct identity_divisors as (Hp21 & Hp22 & H00 & Hs & H22 & Htr).
  by rewrite append_ok by (apply is_3x4_mat34 || assumption).
Qed.

(** C2, as the code has it: after calls of [append] and [clear] on a fresh
    buffer that all return, the eleven columns have one length. *)
Theorem lock_step_after_returning_calls (cs : list call) :
  Forall (λ r, r = Ok tt) (run cs init).2 →
  lock_step (run cs init).1.
Proof. apply run_lock_step, init_lock_step. Qed.

Lemma lock_step_after_returning_calls_witness :
  lock_step
    (run [Append identity_matrix 0; Clear; Append identity_matrix 1] init).1.
Proof.
  apply (lock_step_after_returning_calls
           [Append identity_matrix 0; Clear; Append identity_matrix 1]).
  cbn [run do_call].
  pose proof (append_identity_ok 0 init) as H0.
  destruct (append identity_matrix 0 init) as [b0 r0]. cbn in H0. subst r0.
  destruct (clear b0) as [b1 r1] eqn:Hc. injection Hc as <- <-.
  pose proof (append_identity_ok 1
                (mkBuffer 0 [] [] [] [] [] [] [] [] [] [] [] [])) as H1.
  destruct (append identity_matrix 1 _) as [b2 r2]. cbn in H1. subst r2.
  cbn. repeat constructor.
Defined.

(** C2, as stated, fails: an [append] that raises [ZeroDivisionError] on
    the yaw leaves [time], [x], [y] and [z] one longer than the other
    columns. *)
Lemma lock_step_broken_by_failed_append :
  ¬ lock_step (run [Append quarter_turn 0] init).1.
Proof.
  cbn [run do_call]. rewrite append_quarter_turn. cbn.
  unfold lock_step. cbn. intros (_ & _ & _ & Hyaw & _). discriminate Hyaw.
Qed.

(** The angles that [append] records: when its first three divisors are
    not zero the yaw, pitch and roll columns have grown by the
    single-argument arctangents, whatever the quaternion statements after
    them do. *)
Lemma append_records_angles (m : matrix) (t : R) (b : PoseSampleBuffer) :
  is_3x4 m →
  entry m 2 1 ^ 2 < overflow_bound →
  entry m 2 2 ^ 2 < overflow_bound →
  entry m 0 0 <> 0 →
  sqrt (entry m 2 1 ^ 2 + entry m 2 2 ^ 2) <> 0 →
  entry m 2 2 <> 0 →
  yaw (append m t b).1 =
    yaw b ++ [180 / PI * atan (entry m 1 0 / entry m 0 0)] ∧
  pitch (append m t b).1 =
    pitch b ++ [180 / PI * atan (-1 * entry m 2 0 /
                  sqrt (entry m 2 1 ^ 2 + entry m 2 2 ^ 2))] ∧
  roll (append m t b).1 =
    roll b ++ [180 / PI * atan (entry m 2 1 / entry m 2 2)].
Proof.
  intros Hm Hp21 Hp22 H00 Hs H22.
  pose (P := λ b' : PoseSampleBuffer,
    yaw b' = yaw b ++ [180 / PI * atan (entry m 1 0 / entry m 0 0)] ∧
    pitch b' =
      pitch b ++ [180 / PI * atan (-1 * entry m 2 0 /
                    sqrt (entry m 2 1 ^ 2 + entry m 2 2 ^ 2))] ∧
    roll b' = roll b ++ [180 / PI * atan (entry m 2 1 / entry m 2 2)]).
  change (P (append m t b).1).
  unfold_append. rewrite !(at2_entry m) by (done || lia).
  repeat lazymatch goal with
  | |- P (bind (modify _) _ _).1 =>
      rewrite bind_modify; cbv beta; buffer_fields
  | |- P (bind (lift (Ok _)) _ _).1 => rewrite bind_lift_Ok; cbv beta
  | |- P (bind (lift (pow2 _)) _ _).1 => rewrite pow2_ok by assumption
  | |- P (bind (lift (math_sqrt _)) _ _).1 =>
      rewrite math_sqrt_nonneg
        by (apply sum_squares_nonneg || apply Rabs_pos)
  | |- P (bind (lift (truediv ?a ?d)) _ _).1 =>
      first
        [ rewrite (truediv_nonzero a d) by assumption
        | destruct (truediv a d);
          [ rewrite bind_lift_Ok; cbv beta
          | rewrite bind_lift_Raise; unfold P; cbn [fst]; buffer_fields;
            done ] ]
  end.
  unfold P, modify. cbn [fst]. buffer_fields. done.
Qed.

(** [convert_to_euler] on the half turn: the yaw is 180 degrees. *)
Lemma convert_to_euler_half_turn :
  convert_to_euler half_turn =
    Ok [ 0; 0; 0; 180;
         180 / PI * atan (- 0 / sqrt (0 ^ 2 + 1 ^ 2));
         180 / PI * atan (0 / 1) ].
Proof.
  rewrite convert_to_euler_3x4
    by (apply is_3x4_mat34 || (unfold half_turn; small_square)).
  unfold entry, half_turn, mat34. cbn [nth].
  assert (Hs : 0 < sqrt (0 ^ 2 + 1 ^ 2)).
  { apply sqrt_lt_R0. lra. }
  rewrite math_atan2_neg by lra. rewrite !math_atan2_pos by lra.
  replace (0 / -1) with 0 by (field; lra). rewrite atan_0.
  replace (180 / PI * (0 + PI)) with 180 by (field; apply PI_neq0).
  reflexivity.
Qed.

(** C7: there is a 3x4 pose matrix, a rotation whose first column points
    outside the first quadrant (the half turn about the third axis), for
    which the yaw, pitch and roll of [convert_to_euler] and the yaw, pitch
    and roll that [PoseSampleBuffer.append] puts in its columns for the
    same matrix differ: the two-argument arctangent gives the yaw 180, the
    single-argument arctangent gives 0.  (On a half turn the quaternion
    statements of the same call then divide by zero; the three angles are
    in the columns by then.) *)
Theorem euler_formulas_differ :
  ∃ m : matrix,
    is_3x4 m ∧ is_rotation m ∧ entry m 0 0 < 0 ∧
    ∃ tx ty tz yaw_c pitch_c roll_c yaw_a pitch_a roll_a : R,
      convert_to_euler m = Ok [tx; ty; tz; yaw_c; pitch_c; roll_c] ∧
      yaw (append m 0 init).1 = [yaw_a] ∧
      pitch (append m 0 init).1 = [pitch_a] ∧
      roll (append m 0 init).1 = [roll_a] ∧
      yaw_c = 180 ∧ yaw_a = 0 ∧ yaw_c ≠ yaw_a.
Proof.
  exists half_turn. split; [apply is_3x4_mat34 |].
  split; [apply half_turn_rotation |]. split.
  { unfold entry, half_turn, mat34. cbn [nth]. lra. }
  assert (Hs : sqrt (0 ^ 2 + 1 ^ 2) <> 0).
  { replace (0 ^ 2 + 1 ^ 2) with 1 by lra. rewrite sqrt_1. lra. }
  destruct (append_records_angles half_turn 0 init)
    as (Hyaw & Hpitch & Hroll);
    try apply is_3x4_mat34;
    try (unfold half_turn; small_square);
    try (unfold entry, half_turn, mat34; cbn [nth]; (lra || exact Hs)).
  revert Hyaw Hpitch Hroll.
  unfold entry, half_turn, mat34. cbn [nth init yaw pitch roll app].
  replace (0 / -1) with 0 by (field; lra). rewrite atan_0, Rmult_0_r.
  fold (mat34 (-1) 0 0 0 0 (-1) 0 0 0 0 1 0). fold half_turn.
  intros Hyaw Hpitch Hroll.
  eexists 0, 0, 0, 180, _, _, 0, _, _.
  split; [apply convert_to_euler_half_turn |].
  split; [exact Hyaw |]. split; [exact Hpitch |]. split; [exact Hroll |].
  repeat split; lra.
Qed.

End buffer.

(** ** Device handle *)

Section handle.
Import utils openvr device.
Local Open Scope R_scope.

Lemma getitem_Some {A} (l : list A) (n : nat) (a : A) :
  l !! n = Some a → getitem l n = Ok a.
Proof. intros H. unfold getitem. by rewrite H. Qed.

(** C5: when the snapshot read marks the pose of the handle's slot as not
    valid, the five pose accessors return [None] and do not raise. *)
Theorem invalid_pose_is_no_data (self : Device)
    (pose : option (list TrackedDevicePose_t)) (w : World)
    (p : TrackedDevicePose_t) :
  snapshot_used pose w !! index self = Some p →
  bPoseIsValid p = false →
  (get_pose_euler self pose w).2 = Ok None ∧
  (get_pose_matrix self pose w).2 = Ok None ∧
  (get_velocity self pose w).2 = Ok None ∧
  (get_angular_velocity self pose w).2 = Ok None ∧
  (get_pose_quaternion self pose w).2 = Ok None.
Proof.
  intros Hp Hvalid.
  unfold get_pose_euler, get_pose_matrix, get_velocity, get_angular_velocity,
    get_pose_quaternion, pose_or_fetch, get_pose, bind, lift, ret.
  destruct pose as [pose|]; cbn in Hp |- *;
    rewrite (getitem_Some _ _ _ Hp), Hvalid; done.
Qed.

(** A world whose backend reports one connected slot with an invalid pose. *)
Lemma invalid_pose_is_no_data_witness :
  let occluded := mkPose true false identity_matrix [0; 0; 0] [0; 0; 0] in
  let w := mkWorld (λ _, 0) 0 (λ _, [occluded]) 0 [] [] in
  let self := mkDevice TrackedDevice 0 "Tracker" in
  (get_pose_euler self None w).2 = Ok None ∧
  (get_pose_matrix self None w).2 = Ok None ∧
  (get_velocity self None w).2 = Ok None ∧
  (get_angular_velocity self None w).2 = Ok None ∧
  (get_pose_quaternion self None w).2 = Ok None.
Proof.
  intros occluded w self.
  apply (invalid_pose_is_no_data self None w occluded); reflexivity.
Defined.

Lemma non_decreasing_nil : non_decreasing [].
Proof. intros m n a b _ H. by rewrite lookup_nil in H. Qed.

Lemma non_decreasing_snoc (l : list R) (c : R) :
  non_decreasing l → Forall (λ a, a <= c) l → non_decreasing (l ++ [c]).
Proof.
  intros Hl Hc m n a b Hmn Ha Hb.
  apply lookup_snoc_Some in Ha as [[Hm Ha]|[-> ->]];
    apply lookup_snoc_Some in Hb as [[Hn Hb]|[-> ->]].
  - by apply (Hl m n).
  - rewrite Forall_lookup in Hc. by apply (Hc m).
  - lia.
  - lra.
Qed.

(** The loop of [sample]: when it returns, it has added one entry per
    iteration, and the time column is still ordered. *)
Lemma sample_loop_returns (self : Device) (interval sample_start : R)
    (n : nat) :
  ∀ (rtn : pose_buffer.PoseSampleBuffer) (w w' : World)
    (buf : pose_buffer.PoseSampleBuffer),
    clock_non_decreasing w →
    pose_buffer.lock_step rtn →
    non_decreasing (pose_buffer.time rtn) →
    Forall (λ a, a <= clock w (clock_reads w) - sample_start)
      (pose_buffer.time rtn) →
    sample_loop self interval sample_start n rtn w = (w', Ok buf) →
    pose_buffer.len buf = (pose_buffer.len rtn + n)%nat ∧
    pose_buffer.lock_step buf ∧
    non_decreasing (pose_buffer.time buf).
Proof.
  induction n as [|n IH];
    intros rtn w w' buf Hclock Hlock Hsorted Hbound Hrun.
  - cbn in Hrun. injection Hrun as <- <-. split; [lia | done].
  - cbn [sample_loop] in Hrun.
    unfold bind, time_time, get_pose, lift in Hrun. cbn in Hrun.
    destruct (getitem _ (index self)) as [p|]; [| discriminate Hrun].
    pose proof (append_time (mDeviceToAbsoluteTracking p)
      (clock w (S (clock_reads w)) - sample_start) rtn) as Htime.
    destruct (pose_buffer.append _ _ rtn) as [rtn' [[]|]] eqn:Happend;
      [| discriminate Hrun].
    cbn in Htime. apply append_lock_step in Happend; [| exact Hlock].
    assert (Hstep : ∀ k, clock_reads w ≤ k →
              Forall (λ a, a <= clock w k - sample_start)
                (pose_buffer.time rtn)).
    { intros k Hk. eapply Forall_impl; [exact Hbound |].
      intros a Ha. cbn in Ha. specialize (Hclock _ _ Hk). lra. }
    assert (Hsorted' : non_decreasing (pose_buffer.time rtn')).
    { rewrite Htime. apply non_decreasing_snoc; [done |].
      apply Hstep. lia. }
    assert (Hlen : pose_buffer.len rtn' = S (pose_buffer.len rtn)).
    { unfold pose_buffer.len. rewrite Htime, length_app. cbn. lia. }
    assert (Hbound' : Forall
              (λ a, a <= clock w (S (S (S (clock_reads w)))) - sample_start)
              (pose_buffer.time rtn')).
    { rewrite Htime. apply Forall_app. split; [apply Hstep; lia |].
      constructor; [| constructor].
      assert (clock w (S (clock_reads w))
              <= clock w (S (S (S (clock_reads w))))) by (apply Hclock; lia).
      lra. }
    destruct (Rlt_dec 0 _); cbn in Hrun;
      apply IH in Hrun; try done; rewrite Hlen in Hrun;
      (split; [lia | tauto]).
Qed.

(** The loop returns when every snapshot holds, at the handle's slot, a
    matrix on which [append] does not divide by zero. *)
Lemma sample_loop_total (self : Device) (interval sample_start : R)
    (n : nat) :
  ∀ (rtn : pose_buffer.PoseSampleBuffer) (w : World),
    (∀ k, ∃ p, snapshots w k !! index self = Some p ∧
               pose_buffer.appendable (mDeviceToAbsoluteTracking p)) →
    ∃ w' buf, sample_loop self interval sample_start n rtn w = (w', Ok buf).
Proof.
  induction n as [|n IH]; intros rtn w Hgood; [by eexists _, _ |].
  cbn [sample_loop]. unfold bind, time_time, get_pose, lift. cbn.
  destruct (Hgood (fetches w))
    as (p & Hp & Hm & Hp21 & Hp22 & H00 & Hs & H22 & Htr).
  rewrite (getitem_Some _ _ _ Hp).
  rewrite append_ok by assumption.
  destruct (Rlt_dec 0 _); cbn; apply IH; exact Hgood.
Qed.

Lemma sample_returns (self : Device) (num_samples : Z) (sample_rate : R)
    (w w' : World) (buf : pose_buffer.PoseSampleBuffer) :
  clock_non_decreasing w →
  sample self num_samples sample_rate w = (w', Ok buf) →
  pose_buffer.len buf = Z.to_nat num_samples ∧
  pose_buffer.lock_step buf ∧
  non_decreasing (pose_buffer.time buf).
Proof.
  intros Hclock Hrun.
  assert (Hbase : ∀ w0 w0', clock_non_decreasing w0 →
            TrackedDevice_sample self num_samples sample_rate w0
              = (w0', Ok buf) →
            pose_buffer.len buf = Z.to_nat num_samples ∧
            pose_buffer.lock_step buf ∧
            non_decreasing (pose_buffer.time buf)).
  { clear. intros w w' Hclock Hrun.
    unfold TrackedDevice_sample, bind, lift, time_time in Hrun.
    destruct (truediv 1 sample_rate) as [interval|]; [| discriminate Hrun].
    apply sample_loop_returns in Hrun;
      [done | done | apply init_lock_step | apply non_decreasing_nil
      | by constructor]. }
  unfold sample in Hrun. destruct (handle self).
  - by eapply Hbase.
  - unfold TrackingReference_sample, bind, print, modify in Hrun.
    by eapply Hbase in Hrun.
Qed.

(** C9: a run [sample(10, 100)] that returns yields a buffer of exactly ten
    entries, in each of its columns, whose relative time stamps do not
    decrease, when the clock does not go back. *)
Theorem sample_10_at_100 (self : Device) (w w' : World)
    (buf : pose_buffer.PoseSampleBuffer) :
  clock_non_decreasing w →
  sample self 10 100 w = (w', Ok buf) →
  pose_buffer.len buf = 10%nat ∧ pose_buffer.lock_step buf ∧
  non_decreasing (pose_buffer.time buf).
Proof. intros Hclock Hrun. by apply sample_returns in Hrun. Qed.

(** [sample] returns for a rate that is not zero when every snapshot holds
    an appendable matrix at the handle's slot. *)
Lemma sample_total (self : Device) (num_samples : Z) (sample_rate : R)
    (w : World) :
  sample_rate <> 0 →
  (∀ k, ∃ p, snapshots w k !! index self = Some p ∧
             pose_buffer.appendable (mDeviceToAbsoluteTracking p)) →
  ∃ w' buf, sample self num_samples sample_rate w = (w', Ok buf).
Proof.
  intros Hrate Hgood.
  assert (Hbase : ∀ w0, snapshots w0 = snapshots w →
            ∃ w' buf, TrackedDevice_sample self num_samples sample_rate w0
                        = (w', Ok buf)).
  { intros w0 Hw0. unfold TrackedDevice_sample, bind, lift, time_time.
    rewrite truediv_nonzero by done.
    apply sample_loop_total. cbn. by rewrite Hw0. }
  unfold sample. destruct (handle self); [by apply Hbase |].
  unfold TrackingReference_sample, bind, print, modify. by apply Hbase.
Qed.

(** A tracker that rests at the origin, watched by a clock that advances
    by one second per read. *)
Lemma sample_10_at_100_witness :
  let resting := mkPose true true identity_matrix [0; 0; 0] [0; 0; 0] in
  let w := mkWorld INR 0 (λ _, [resting]) 0 [] [] in
  let self := mkDevice TrackedDevice 0 "Tracker" in
  ∃ w' buf,
    sample self 10 100 w = (w', Ok buf) ∧
    pose_buffer.len buf = 10%nat ∧ pose_buffer.lock_step buf ∧
    non_decreasing (pose_buffer.time buf).
Proof.
  intros resting w self.
  destruct (sample_total self 10 100 w) as (w' & buf & Hrun); [lra | |].
  { intros k. exists resting. split; [reflexivity |].
    split; [apply is_3x4_mat34 | apply identity_divisors]. }
  exists w', buf. split; [exact Hrun |].
  apply (sample_10_at_100 self w w' buf); [| exact Hrun].
  intros m n Hmn. cbn. apply le_INR, Hmn.
Defined.

End handle.

(** ** Device registry *)

Section registry.
Import utils openvr device tracker.

(** C1, as the code has it: renaming a name that is not a key of the name
    table raises [KeyError], from [self.devices.pop], and leaves the name
    table, the per-class lists and the slot map as they were. *)
Theorem rename_unknown_raises (t : Tracker)
    (old_device_name new_device_name : string) :
  devices t !! old_device_name = None →
  rename_device old_device_name new_device_name t = (t, Raise KeyError).
Proof.
  intros Hold. unfold rename_device, bind, devices_get, dict_get.
  by rewrite Hold.
Qed.

Lemma rename_unknown_raises_witness :
  rename_device "ghost" "left_hand" empty = (empty, Raise KeyError).
Proof. apply (rename_unknown_raises empty "ghost" "left_hand"). reflexivity. Defined.

(** C1, as stated, fails: the rename of an unknown name is not silent. *)
Lemma rename_unknown_is_not_silent :
  devices empty !! "ghost" = None ∧
  (rename_device "ghost" "left_hand" empty).2 ≠ Ok tt.
Proof. split; [reflexivity |]. cbn. discriminate. Qed.

(** C4: removing a slot index that is not in the slot map raises the
    exception of an invalid device index and changes nothing. *)
Theorem remove_untracked_raises (t : Tracker) (tracked_device_index : nat) :
  device_index_map t !! tracked_device_index = None →
  remove_tracked_device tracked_device_index t =
    (t, Raise (InvalidDeviceIndex tracked_device_index)).
Proof. intros Hidx. unfold remove_tracked_device. by rewrite Hidx. Qed.

Lemma remove_untracked_raises_witness :
  remove_tracked_device 3 empty = (empty, Raise (InvalidDeviceIndex 3)).
Proof. apply (remove_untracked_raises empty 3). reflexivity. Defined.

(** C10: for a slot whose class is none of Controller, HMD, GenericTracker
    and TrackingReference, [add_tracked_device] returns and changes
    nothing. *)
Theorem add_other_class_is_noop (vr : IVRSystem) (t : Tracker)
    (tracked_device_index : nat) :
  getTrackedDeviceClass vr tracked_device_index
    ≠ TrackedDeviceClass_Controller →
  getTrackedDeviceClass vr tracked_device_index ≠ TrackedDeviceClass_HMD →
  getTrackedDeviceClass vr tracked_device_index
    ≠ TrackedDeviceClass_GenericTracker →
  getTrackedDeviceClass vr tracked_device_index
    ≠ TrackedDeviceClass_TrackingReference →
  add_tracked_device vr tracked_device_index t = (t, Ok tt).
Proof.
  intros Hc Hh Hg Hr. unfold add_tracked_device.
  destruct (getTrackedDeviceClass vr tracked_device_index); done.
Qed.

Lemma add_other_class_is_noop_witness :
  let vr := mkVR (λ _, TrackedDeviceClass_DisplayRedirect) (λ _, "LHR-0") in
  add_tracked_device vr 5 empty = (empty, Ok tt).
Proof.
  intros vr. apply (add_other_class_is_noop vr empty 5); discriminate.
Defined.

(** C3 on the code: three controllers at the slots 0, 1 and 2; the first
    leaves, the third arrives and takes the name of the second, and when the
    second leaves the third loses its handle but keeps its entries in the
    class list and in the slot map.  No call raises. *)
Theorem registry_invariant_broken_by_name_reuse :
  let vr := mkVR (λ _, TrackedDeviceClass_Controller) (λ _, "LHR-0") in
  let calls := [AddTrackedDevice 0; AddTrackedDevice 1; RemoveTrackedDevice 0;
                AddTrackedDevice 2; RemoveTrackedDevice 1] in
  let t := (run vr calls empty).1 in
  (run vr calls empty).2 = [Ok tt; Ok tt; Ok tt; Ok tt; Ok tt] ∧
  object_names t !! "Controller" = Some ["controller_2"] ∧
  devices t = ∅ ∧
  device_index_map t = {[ 2%nat := "controller_2" ]} ∧
  ¬ slots_named t ∧ ¬ class_lists_exact t.
Proof.
  intros vr calls t.
  assert (Hrun : run vr calls empty =
    (mkTracker
       (<["Tracking Reference" := []]> (<["HMD" := []]>
         (<["Controller" := ["controller_2"]]> (<["Tracker" := []]> ∅))))
       ∅ {[ 2%nat := "controller_2" ]},
     [Ok tt; Ok tt; Ok tt; Ok tt; Ok tt])).
  { vm_compute. reflexivity. }
  subst t. rewrite Hrun. cbn [fst snd object_names devices device_index_map].
  split; [reflexivity |]. split; [reflexivity |]. split; [reflexivity |].
  split; [reflexivity |]. split.
  - intros Hinv. destruct (Hinv 2%nat "controller_2") as [d Hd];
      [reflexivity | cbn [devices] in Hd; by rewrite lookup_empty in Hd].
  - intros Hinv.
    destruct (Hinv "Controller" ["controller_2"] eq_refl "controller_2")
      as [Hin _].
    destruct Hin as (d & Hd & _); [apply list_elem_of_here |].
    cbn [devices] in Hd. by rewrite lookup_empty in Hd.
Qed.

(** The same invariant after a rename: the slot map still holds the old
    name, which has no handle any more, and the removal of the slot then
    raises [KeyError]. *)
Lemma registry_invariant_broken_by_rename :
  let vr := mkVR (λ _, TrackedDeviceClass_Controller) (λ _, "LHR-0") in
  let t := (run vr [AddTrackedDevice 0;
                    RenameDevice "controller_1" "left_hand"] empty).1 in
  device_index_map t !! 0%nat = Some "controller_1" ∧
  devices t !! "controller_1" = None ∧
  ¬ slots_named t ∧
  (remove_tracked_device 0 t).2 = Raise KeyError.
Proof.
  intros vr t.
  assert (Hmap : device_index_map t !! 0%nat = Some "controller_1")
    by (vm_compute; reflexivity).
  assert (Hdev : devices t !! "controller_1" = None)
    by (vm_compute; reflexivity).
  split; [exact Hmap |]. split; [exact Hdev |]. split.
  - intros Hinv. destruct (Hinv _ _ Hmap) as [d Hd]. congruence.
  - unfold remove_tracked_device. rewrite Hmap.
    unfold bind, devices_get, dict_get. by rewrite Hdev.
Qed.

(** *** What the add and remove paths do keep *)

Lemma add_as_eq (prefix cls : string) (h : handle_class) (i : nat)
    (t : Tracker) (names : list string) :
  object_names t !! cls = Some names →
  let device_name := prefix +:+ pretty (length names + 1) in
  add_as prefix cls h i t =
    (mkTracker (<[cls := names ++ [device_name]]> (object_names t))
       (<[device_name := mkDevice h i cls]> (devices t))
       (<[i := device_name]> (device_index_map t)),
     Ok tt).
Proof.
  intros Hnames device_name.
  unfold add_as, object_names_append, bind, object_names_get, dict_get,
    set_object_names, set_devices, set_device_index_map, modify.
  rewrite Hnames. reflexivity.
Qed.

(** Adding under a name that is free keeps the registry well formed. *)
Lemma add_as_well_formed (prefix cls : string) (h : handle_class) (i : nat)
    (t : Tracker) (names : list string) :
  well_formed t →
  object_names t !! cls = Some names →
  devices t !! (prefix +:+ pretty (length names + 1)) = None →
  well_formed (add_as prefix cls h i t).1.
Proof.
  intros ((Hslots & Hexact) & Hlisted & Hnodup & Hinj) Hnames Hfree.
  rewrite (add_as_eq prefix cls h i t names Hnames). cbn [fst].
  set (device_name := prefix +:+ pretty (length names + 1)) in *.
  assert (Hnotin : device_name ∉ names).
  { intros Hin. apply (Hexact cls names Hnames) in Hin as (d & Hd & _).
    congruence. }
  unfold well_formed, registry_invariant, slots_named, class_lists_exact,
    classes_listed, lists_NoDup, slots_injective.
  cbn [object_names devices device_index_map].
  split; [split |split; [|split]].
  - intros j n. rewrite lookup_insert. case_decide as Hj.
    + intros [= <-]. rewrite lookup_insert_eq. by eexists.
    + intros Hn. destruct (Hslots j n Hn) as [d Hd].
      rewrite lookup_insert_ne; [by eexists | congruence].
  - intros cls0 names0 Hcls0 n. revert Hcls0.
    rewrite lookup_insert. case_decide as Hc.
    + intros [= <-]. subst cls0. rewrite elem_of_app, list_elem_of_singleton.
      split.
      * intros [Hin | ->].
        -- apply (Hexact cls names Hnames) in Hin as (d & Hd & Hcls).
           exists d. rewrite lookup_insert_ne; [done | congruence].
        -- eexists. by rewrite lookup_insert_eq.
      * intros (d & Hd & Hcls). revert Hd. rewrite lookup_insert.
        case_decide as Hn; [by right |].
        intros Hd. left. apply (Hexact cls names Hnames). by exists d.
    + intros Hcls0. split.
      * intros Hin.
        apply (Hexact cls0 names0 Hcls0) in Hin as (d & Hd & Hcls).
        exists d. rewrite lookup_insert_ne; [done | congruence].
      * intros (d & Hd & Hcls). revert Hd. rewrite lookup_insert.
        case_decide as Hn; [intros [= <-]; by cbn in Hcls |].
        intros Hd. apply (Hexact cls0 names0 Hcls0). by exists d.
  - intros n d. rewrite lookup_insert. case_decide as Hn.
    + intros [= <-]. cbn [device_class]. rewrite lookup_insert_eq.
      by eexists.
    + intros Hd. destruct (Hlisted n d Hd) as [l Hl].
      rewrite lookup_insert. case_decide; by eexists.
  - intros cls0 names0. rewrite lookup_insert. case_decide as Hc.
    + intros [= <-]. apply NoDup_app. split; [by eapply Hnodup |].
      split; [| apply NoDup_singleton].
      intros n Hn ->%list_elem_of_singleton. done.
    + apply Hnodup.
  - intros j k n. rewrite !lookup_insert.
    repeat case_decide; try congruence.
    + intros [= <-] Hk. destruct (Hslots k device_name Hk). congruence.
    + intros Hj [= <-]. destruct (Hslots j device_name Hj). congruence.
    + apply Hinj.
Qed.

Lemma list_remove_NoDup (device_name : string) (names : list string) :
  device_name ∈ names → NoDup names →
  ∃ names', list_remove device_name names = Ok names' ∧ NoDup names' ∧
            ∀ n, n ∈ names' ↔ n ∈ names ∧ n ≠ device_name.
Proof.
  induction names as [|n0 names IH]; intros Hin Hnodup.
  - by apply elem_of_nil in Hin.
  - apply NoDup_cons in Hnodup as [Hn0 Hnodup]. cbn [list_remove].
    case_decide as Heq.
    + subst n0. exists names. split; [done |]. split; [done |].
      intros n. rewrite elem_of_cons. split; [| tauto].
      intros Hn. split; [tauto | congruence].
    + apply elem_of_cons in Hin as [-> | Hin]; [done |].
      destruct (IH Hin Hnodup) as (names' & -> & Hnodup' & Hmem).
      exists (n0 :: names'). split; [done |]. split.
      * apply NoDup_cons. split; [| done]. rewrite Hmem. tauto.
      * intros n. rewrite !elem_of_cons, Hmem. split; [| tauto].
        intros [-> | ?]; tauto.
Qed.

(** Removing a tracked slot of a well-formed registry returns and keeps it
    well formed. *)
Lemma remove_tracked_well_formed (t : Tracker) (i : nat)
    (device_name : string) :
  well_formed t →
  device_index_map t !! i = Some device_name →
  ∃ t', remove_tracked_device i t = (t', Ok tt) ∧ well_formed t'.
Proof.
  intros ((Hslots & Hexact) & Hlisted & Hnodup & Hinj) Hi.
  destruct (Hslots i device_name Hi) as [d Hd].
  destruct (Hlisted device_name d Hd) as [names Hnames].
  assert (Hin : device_name ∈ names).
  { apply (Hexact _ _ Hnames). by exists d. }
  destruct (list_remove_NoDup device_name names Hin (Hnodup _ _ Hnames))
    as (names' & Hrem & Hnodup' & Hmem).
  eexists. split.
  { unfold remove_tracked_device. rewrite Hi.
    unfold bind, devices_get, object_names_get, dict_get, lift,
      set_object_names, set_devices, set_device_index_map, modify.
    rewrite Hd, Hnames, Hrem. cbn. rewrite Hd. reflexivity. }
  unfold well_formed, registry_invariant, slots_named, class_lists_exact,
    classes_listed, lists_NoDup, slots_injective.
  cbn [object_names devices device_index_map].
  split; [split |split; [|split]].
  - intros j n. rewrite lookup_delete. case_decide as Hj; [done |].
    intros Hn. destruct (Hslots j n Hn) as [d' Hd'].
    exists d'. rewrite lookup_delete_ne; [done |].
    intros ->. by apply Hj, (Hinj i j n).
  - intros cls names0 Hcls n. revert Hcls.
    rewrite lookup_insert. case_decide as Hc.
    + intros [= <-]. subst cls. rewrite Hmem. split.
      * intros [Hn Hne].
        apply (Hexact _ _ Hnames) in Hn as (d' & Hd' & Hcls).
        exists d'. by rewrite lookup_delete_ne.
      * intros (d' & Hd' & Hcls).
        revert Hd'. rewrite lookup_delete. case_decide as Hn; [done |].
        intros Hd'. split; [| done].
        apply (Hexact _ _ Hnames). by exists d'.
    + intros Hcls. split.
      * intros Hn. apply (Hexact _ _ Hcls) in Hn as (d' & Hd' & Hcls').
        exists d'. rewrite lookup_delete_ne; [done |]. congruence.
      * intros (d' & Hd' & Hcls'). revert Hd'. rewrite lookup_delete.
        case_decide as Hn; [done |]. intros Hd'.
        apply (Hexact _ _ Hcls). by exists d'.
  - intros n d'. rewrite lookup_delete. case_decide as Hn; [done |].
    intros Hd'. destruct (Hlisted n d' Hd') as [l Hl].
    rewrite lookup_insert. case_decide; by eexists.
  - intros cls names0. rewrite lookup_insert. case_decide as Hc.
    + by intros [= <-].
    + apply Hnodup.
  - intros j k n. rewrite !lookup_delete.
    repeat case_decide; try done. apply Hinj.
Qed.

(** *** Construction without a configuration file *)

(** Names generated for two classes never coincide. *)
Lemma name_prefix_clash (cls cls' prefix prefix' s s' : string) :
  name_prefix cls = Some prefix → name_prefix cls' = Some prefix' →
  prefix +:+ s = prefix' +:+ s' → cls = cls'.
Proof.
  unfold name_prefix. intros Hp Hp' Heq.
  repeat case_decide; simplify_eq; try done; cbn in *; congruence.
Qed.

Lemma numbered_S (prefix : string) (n : nat) :
  numbered prefix (S n) = numbered prefix n ++ [prefix +:+ pretty (n + 1)].
Proof.
  unfold numbered. rewrite seq_S, fmap_app. cbn [fmap list_fmap].
  by rewrite (Nat.add_comm 1 n).
Qed.

Lemma elem_of_numbered (prefix : string) (n : nat) (x : string) :
  x ∈ numbered prefix n ↔ ∃ k, 1 ≤ k ≤ n ∧ x = prefix +:+ pretty k.
Proof.
  unfold numbered. rewrite list_elem_of_fmap. split.
  - intros (k & -> & Hk%elem_of_seq). exists k. split; [lia | done].
  - intros (k & Hk & ->). exists k. split; [done |].
    apply elem_of_seq. lia.
Qed.

(** In a registry that has only added devices the next name is free. *)
Lemma sequential_fresh (t : Tracker) (cls prefix : string)
    (names : list string) :
  well_formed t → sequential t →
  name_prefix cls = Some prefix →
  object_names t !! cls = Some names →
  devices t !! (prefix +:+ pretty (length names + 1)) = None.
Proof.
  intros ((Hslots & Hexact) & Hlisted & Hnodup & Hinj) [Hseq Hkeys].
  intros Hprefix Hnames.
  destruct (devices t !! _) as [d|] eqn:Hd; [exfalso | done].
  destruct (Hlisted _ _ Hd) as [names' Hnames'].
  destruct (Hkeys (device_class d)) as [prefix' Hprefix']; [by eexists |].
  destruct (Hseq _ _ Hprefix') as (names'' & Hnames'' & Hnum).
  assert (names'' = names') as -> by congruence.
  assert (Hin : prefix +:+ pretty (length names + 1) ∈ names').
  { apply (Hexact _ _ Hnames'). by exists d. }
  rewrite Hnum in Hin. apply elem_of_numbered in Hin as (k & Hk & Heq).
  assert (cls = device_class d) as Hcls
    by (eapply name_prefix_clash; eassumption).
  rewrite <- Hcls in *.
  assert (prefix' = prefix) as -> by congruence.
  assert (names' = names) as -> by congruence.
  apply (inj (String.app prefix)), (inj pretty) in Heq. lia.
Qed.

Lemma add_as_sequential (prefix cls : string) (h : handle_class) (i : nat)
    (t : Tracker) (names : list string) :
  sequential t →
  name_prefix cls = Some prefix →
  object_names t !! cls = Some names →
  sequential (add_as prefix cls h i t).1.
Proof.
  intros [Hseq Hkeys] Hprefix Hnames.
  rewrite (add_as_eq prefix cls h i t names Hnames). cbn [fst].
  unfold sequential. cbn [object_names]. split.
  - intros cls0 prefix0 Hprefix0. rewrite lookup_insert.
    case_decide as Hc.
    + subst cls0. assert (prefix0 = prefix) as -> by congruence.
      eexists. split; [done |].
      destruct (Hseq _ _ Hprefix) as (names0 & Hnames0 & Hnum).
      assert (names0 = names) as -> by congruence.
      rewrite length_app. cbn [length].
      rewrite Nat.add_1_r, numbered_S, <- Hnum. by rewrite Nat.add_1_r.
    + by apply Hseq.
  - intros cls0. rewrite lookup_insert. case_decide as Hc.
    + subst cls0. intros _. by eexists.
    + apply Hkeys.
Qed.

(** On such a registry [add_tracked_device] returns, and the registry stays
    well formed. *)
Lemma add_tracked_device_sequential (vr : IVRSystem) (i : nat) (t : Tracker) :
  well_formed t → sequential t →
  (add_tracked_device vr i t).2 = Ok tt ∧
  well_formed (add_tracked_device vr i t).1 ∧
  sequential (add_tracked_device vr i t).1.
Proof.
  intros Hwf Hseq.
  assert (Hbranch : ∀ prefix cls h, name_prefix cls = Some prefix →
            (add_as prefix cls h i t).2 = Ok tt ∧
            well_formed (add_as prefix cls h i t).1 ∧
            sequential (add_as prefix cls h i t).1).
  { intros prefix cls h Hprefix.
    destruct (proj1 Hseq _ _ Hprefix) as (names & Hnames & _).
    split; [by rewrite (add_as_eq prefix cls h i t names Hnames) |].
    split; [| by eapply add_as_sequential].
    eapply add_as_well_formed; [done | done |].
    by eapply sequential_fresh. }
  unfold add_tracked_device.
  destruct (getTrackedDeviceClass vr i); try done; by apply Hbranch.
Qed.

Lemma init_slots_sequential (vr : IVRSystem)
    (poses : list TrackedDevicePose_t) (idxs : list nat) :
  ∀ t, well_formed t → sequential t →
    well_formed (init_slots vr poses None idxs t).1 ∧
    sequential (init_slots vr poses None idxs t).1 ∧
    (Forall (λ i, i < length poses) idxs →
     (init_slots vr poses None idxs t).2 = Ok tt).
Proof.
  induction idxs as [|i idxs IH]; intros t Hwf Hseq; [done |].
  destruct (poses !! i) as [p|] eqn:Hp.
  - assert (Hstep : ∃ t', (if bDeviceIsConnected p
                           then add_tracked_device vr i
                           else ret tt) t = (t', Ok tt) ∧
                          well_formed t' ∧ sequential t').
    { destruct (bDeviceIsConnected p); [| by eexists].
      destruct (add_tracked_device_sequential vr i t Hwf Hseq)
        as (Hok & Hwf' & Hseq').
      destruct (add_tracked_device vr i t) as [t' r]. cbn in *. subst r.
      by eexists. }
    destruct Hstep as (t' & Hstep & Hwf' & Hseq').
    assert (Hnext : init_slots vr poses None (i :: idxs) t
                    = init_slots vr poses None idxs t').
    { cbn [init_slots]. unfold bind, lift, getitem. rewrite Hp.
      cbv beta iota. by rewrite Hstep. }
    rewrite Hnext. destruct (IH t' Hwf' Hseq') as (? & ? & Hok).
    split; [done |]. split; [done |].
    intros Hall. apply Hok. by inversion Hall.
  - assert (Hstop : init_slots vr poses None (i :: idxs) t
                    = (t, Raise IndexError)).
    { cbn [init_slots]. unfold bind, lift, getitem. by rewrite Hp. }
    rewrite Hstop. split; [done |]. split; [done |].
    intros Hall. inversion Hall as [|? ? Hi]; subst.
    apply lookup_lt_is_Some_2 in Hi as [? ?]. congruence.
Qed.

Lemma empty_well_formed : well_formed empty ∧ sequential empty.
Proof.
  unfold well_formed, registry_invariant, slots_named, class_lists_exact,
    classes_listed, lists_NoDup, slots_injective, sequential, empty.
  cbn [object_names devices device_index_map].
  split; [split; [split |split; [|split]] | split].
  - intros i n Hi. by rewrite lookup_empty in Hi.
  - intros cls names Hcls n. split.
    + intros Hn. revert Hcls. rewrite !lookup_insert, lookup_empty.
      repeat case_decide; intros; simplify_eq; by apply elem_of_nil in Hn.
    + intros (d & Hd & _). by rewrite lookup_empty in Hd.
  - intros n d Hd. by rewrite lookup_empty in Hd.
  - intros cls names. rewrite !lookup_insert, lookup_empty.
    repeat case_decide; intros; simplify_eq; apply NoDup_nil_2.
  - intros i j n Hi. by rewrite lookup_empty in Hi.
  - intros cls prefix. unfold name_prefix. rewrite !lookup_insert.
    repeat case_decide; intros; simplify_eq; by eexists.
  - intros cls. unfold name_prefix. rewrite !lookup_insert, lookup_empty.
    repeat case_decide; intros [? ?]; simplify_eq; by eexists.
Qed.

(** The registry built without a configuration file satisfies the
    invariant, and the constructor returns when the backend delivers a pose
    for each of its slots. *)
Lemma init_without_config (vr : IVRSystem)
    (poses : list TrackedDevicePose_t) :
  registry_invariant (init vr poses None).1 ∧
  (k_unMaxTrackedDeviceCount ≤ length poses →
   (init vr poses None).2 = Ok tt).
Proof.
  destruct empty_well_formed as [Hwf Hseq].
  destruct (init_slots_sequential vr poses (seq 0 k_unMaxTrackedDeviceCount)
              empty Hwf Hseq) as ((Hinv & _) & _ & Hok).
  split; [exact Hinv |]. intros Hlen. apply Hok.
  apply Forall_forall. intros i Hi%elem_of_seq. lia.
Qed.

End registry.

(** * Further properties of the code *)

(** ** Coordinate transform, continued *)

Section transform_more.
Import utils.
Local Open Scope R_scope.

Lemma convert_to_quaternion_cases_core (m : matrix) :
  is_3x4 m →
  let tr1 := 1 + entry m 0 0 + entry m 1 1 + entry m 2 2 in
  let r_w := sqrt (Rabs tr1) / 2 in
  (tr1 = 0 → convert_to_quaternion m = Raise ZeroDivisionError) ∧
  (tr1 <> 0 →
   convert_to_quaternion m =
     Ok [ entry m 0 3; entry m 1 3; entry m 2 3; r_w;
          (entry m 2 1 - entry m 1 2) / (4 * r_w);
          (entry m 0 2 - entry m 2 0) / (4 * r_w);
          (entry m 1 0 - entry m 0 1) / (4 * r_w) ]).
Proof.
  intros Hm tr1 r_w. split.
  - by apply convert_to_quaternion_degenerate.
  - intros Htr.
    assert (Hw : 4 * r_w <> 0).
    { unfold r_w. intros Hz.
      apply (Rabs_no_R0 _ Htr), sqrt_eq_0; [apply Rabs_pos | lra]. }
    unfold convert_to_quaternion.
    rewrite !(at2_entry m) by (done || lia). cbn [mbind result_bind].
    rewrite math_sqrt_nonneg by apply Rabs_pos. cbn [mbind result_bind].
    fold tr1. fold r_w.
    rewrite !truediv_nonzero by exact Hw. reflexivity.
Qed.



(** Two consequences of orthonormal rows and determinant one. *)
Lemma rotation_skew (m : matrix) :
  is_rotation m →
  let t := entry m 0 0 + entry m 1 1 + entry m 2 2 in
  (entry m 2 1 - entry m 1 2) * (entry m 2 1 - entry m 1 2)
  + (entry m 0 2 - entry m 2 0) * (entry m 0 2 - entry m 2 0)
  + (entry m 1 0 - entry m 0 1) * (entry m 1 0 - entry m 0 1)
  = (1 + t) * (3 - t).
Proof.
  unfold is_rotation. cbv zeta.
  generalize (entry m 0 0) (entry m 0 1) (entry m 0 2) (entry m 1 0)
    (entry m 1 1) (entry m 1 2) (entry m 2 0) (entry m 2 1) (entry m 2 2).
  intros a b c d e f g h k (H1 & H2 & H3 & H4 & H5 & H6 & H7). nsatz.
Qed.

Lemma rotation_first_column (m : matrix) :
  is_rotation m →
  entry m 0 0 * entry m 0 0 + entry m 1 0 * entry m 1 0
  + entry m 2 0 * entry m 2 0 = 1.
Proof.
  unfold is_rotation. cbv zeta.
  generalize (entry m 0 0) (entry m 0 1) (entry m 0 2) (entry m 1 0)
    (entry m 1 1) (entry m 1 2) (entry m 2 0) (entry m 2 1) (entry m 2 2).
  intros a b c d e f g h k (H1 & H2 & H3 & H4 & H5 & H6 & H7). nsatz.
Qed.

Lemma rotation_trace_bounds (m : matrix) :
  is_rotation m →
  -1 <= entry m 0 0 + entry m 1 1 + entry m 2 2 <= 3.
Proof.
  intros Hrot. pose proof (rotation_skew m Hrot) as Hskew. cbv zeta in Hskew.
  destruct Hrot as (H1 & H2 & H3 & _). cbv zeta in *.
  revert Hskew H1 H2 H3.
  generalize (entry m 0 0) (entry m 0 1) (entry m 0 2) (entry m 1 0)
    (entry m 1 1) (entry m 1 2) (entry m 2 0) (entry m 2 1) (entry m 2 2).
  intros a b c d e f g h k Hskew H1 H2 H3.
  assert (Ha : a <= 1).
  { pose proof (Rle_0_sqr (a - 1)). pose proof (Rle_0_sqr b).
    pose proof (Rle_0_sqr c). unfold Rsqr in *. lra. }
  assert (He : e <= 1).
  { pose proof (Rle_0_sqr (e - 1)). pose proof (Rle_0_sqr d).
    pose proof (Rle_0_sqr f). unfold Rsqr in *. lra. }
  assert (Hk : k <= 1).
  { pose proof (Rle_0_sqr (k - 1)). pose proof (Rle_0_sqr g).
    pose proof (Rle_0_sqr h). unfold Rsqr in *. lra. }
  split; [| lra].
  destruct (Rle_dec (-1) (a + e + k)) as [|Hlt]; [done |].
  exfalso.
  assert (Hneg : 0 < - (1 + (a + e + k)) * (3 - (a + e + k)))
    by (apply Rmult_lt_0_compat; lra).
  pose proof (Rle_0_sqr (h - f)). pose proof (Rle_0_sqr (c - g)).
  pose proof (Rle_0_sqr (d - b)). unfold Rsqr in *. lra.
Qed.

(** On the pose of a rigid body that is not a half turn,
    [convert_to_quaternion] returns a unit quaternion with a positive
    scalar part. *)
Theorem convert_to_quaternion_unit (m : matrix) :
  is_3x4 m → is_rotation m →
  1 + entry m 0 0 + entry m 1 1 + entry m 2 2 <> 0 →
  ∃ r_w r_x r_y r_z,
    convert_to_quaternion m =
      Ok [entry m 0 3; entry m 1 3; entry m 2 3; r_w; r_x; r_y; r_z] ∧
    0 < r_w ∧
    r_w * r_w + r_x * r_x + r_y * r_y + r_z * r_z = 1.
Proof.
  intros Hm Hrot Htr.
  destruct (convert_to_quaternion_cases_core m Hm) as [_ Hok].
  specialize (Hok Htr). eexists _, _, _, _. split; [exact Hok |].
  pose proof (rotation_skew m Hrot) as Hskew.
  pose proof (rotation_trace_bounds m Hrot) as Hbounds.
  cbv zeta in Hskew.
  set (t := entry m 0 0 + entry m 1 1 + entry m 2 2) in *.
  replace (1 + entry m 0 0 + entry m 1 1 + entry m 2 2) with (1 + t) in *
    by (unfold t; ring).
  assert (Hpos : 0 < 1 + t) by lra.
  rewrite (Rabs_pos_eq (1 + t)) by lra.
  pose proof (sqrt_lt_R0 _ Hpos) as Hs.
  pose proof (sqrt_def (1 + t) (Rlt_le _ _ Hpos)) as Hss.
  set (s := sqrt (1 + t)) in *.
  split; [lra |].
  set (px := entry m 2 1 - entry m 1 2) in *.
  set (py := entry m 0 2 - entry m 2 0) in *.
  set (pz := entry m 1 0 - entry m 0 1) in *.
  assert (Hsum : px * px + py * py + pz * pz = s * s * (3 - t))
    by (rewrite Hss; exact Hskew).
  replace (s / 2 * (s / 2) + px / (4 * (s / 2)) * (px / (4 * (s / 2)))
           + py / (4 * (s / 2)) * (py / (4 * (s / 2)))
           + pz / (4 * (s / 2)) * (pz / (4 * (s / 2))))
    with (s * s / 4 + (px * px + py * py + pz * pz) / (4 * (s * s)))
    by (field; lra).
  rewrite Hsum, Hss. field. lra.
Qed.

Lemma convert_to_quaternion_unit_witness :
  ∃ r_w r_x r_y r_z,
    convert_to_quaternion obtuse_turn =
      Ok [entry obtuse_turn 0 3; entry obtuse_turn 1 3;
          entry obtuse_turn 2 3; r_w; r_x; r_y; r_z] ∧
    0 < r_w ∧
    r_w * r_w + r_x * r_x + r_y * r_y + r_z * r_z = 1.
Proof.
  apply (convert_to_quaternion_unit obtuse_turn);
    [apply is_3x4_mat34 | apply obtuse_turn_rotation |].
  unfold entry, obtuse_turn, mat34. cbn [nth]. lra.
Defined.







(** On the pose of a rigid body the angles of [convert_to_euler], taken
    back to radians, give back the third row and the first column of the
    rotation: they are the yaw-pitch-roll angles of the rotation. *)
Theorem convert_to_euler_decodes (m : matrix) :
  is_3x4 m → is_rotation m →
  ∃ yaw pitch roll,
    convert_to_euler m =
      Ok [entry m 0 3; entry m 1 3; entry m 2 3; yaw; pitch; roll] ∧
    let rad := λ a, a * PI / 180 in
    entry m 2 0 = - sin (rad pitch) ∧
    entry m 2 1 = cos (rad pitch) * sin (rad roll) ∧
    entry m 2 2 = cos (rad pitch) * cos (rad roll) ∧
    entry m 0 0 = cos (rad pitch) * cos (rad yaw) ∧
    entry m 1 0 = cos (rad pitch) * sin (rad yaw).
Proof.
  intros Hm Hrot. eexists _, _, _. split.
  { destruct (rotation_squares_bounded m Hrot).
    by apply convert_to_euler_3x4. }
  cbv zeta beta.
  assert (Hrad : ∀ a, 180 / PI * a * PI / 180 = a)
    by (intros a; field; apply PI_neq0).
  rewrite !Hrad.
  pose proof (rotation_first_column m Hrot) as Hcol.
  destruct Hrot as (_ & _ & Hrow & _). cbv zeta in Hrow.
  set (m00 := entry m 0 0) in *. set (m10 := entry m 1 0) in *.
  set (m20 := entry m 2 0) in *. set (m21 := entry m 2 1) in *.
  set (m22 := entry m 2 2) in *.
  assert (Hnn : 0 <= m21 ^ 2 + m22 ^ 2) by apply sum_squares_nonneg.
  pose proof (sqrt_def _ Hnn) as Hss. pose proof (sqrt_pos (m21 ^ 2 + m22 ^ 2)).
  set (s := sqrt (m21 ^ 2 + m22 ^ 2)) in *.
  (* pitch *)
  destruct (math_atan2_polar (- m20) s) as [Hcp Hsp].
  { destruct (Req_dec_T s 0) as [Hs0|]; [| by left].
    right. intros Hm20. rewrite Hs0 in Hss. nra. }
  replace (s ^ 2 + (- m20) ^ 2) with 1 in Hcp, Hsp by nra.
  rewrite sqrt_1, Rmult_1_l in Hcp, Hsp. rewrite Hcp, Hsp.
  split; [lra |].
  (* roll *)
  assert (Hroll : m21 = s * sin (math_atan2 m21 m22) ∧
                  m22 = s * cos (math_atan2 m21 m22)).
  { destruct (Req_dec_T m22 0) as [H22|H22];
      [destruct (Req_dec_T m21 0) as [H21|H21] |].
    - assert (s = 0) as -> by (rewrite H21, H22 in Hss; nra).
      rewrite H21, H22. lra.
    - destruct (math_atan2_polar m21 m22) as [Hc Hs]; [by right |].
      replace (m22 ^ 2 + m21 ^ 2) with (m21 ^ 2 + m22 ^ 2) in Hc, Hs by ring.
      fold s in Hc, Hs. lra.
    - destruct (math_atan2_polar m21 m22) as [Hc Hs]; [by left |].
      replace (m22 ^ 2 + m21 ^ 2) with (m21 ^ 2 + m22 ^ 2) in Hc, Hs by ring.
      fold s in Hc, Hs. lra. }
  split; [tauto |]. split; [tauto |].
  (* yaw *)
  assert (Hs00 : sqrt (m00 ^ 2 + m10 ^ 2) = s).
  { unfold s. f_equal. nra. }
  destruct (Req_dec_T m00 0) as [H00|H00];
    [destruct (Req_dec_T m10 0) as [H10|H10] |].
  - assert (s = 0) as ->.
    { rewrite <- Hs00, H00, H10. replace (0 ^ 2 + 0 ^ 2) with 0 by ring.
      apply sqrt_0. }
    rewrite H00, H10. lra.
  - destruct (math_atan2_polar m10 m00) as [Hc Hs]; [by right |].
    rewrite Hs00 in Hc, Hs. lra.
  - destruct (math_atan2_polar m10 m00) as [Hc Hs]; [by left |].
    rewrite Hs00 in Hc, Hs. lra.
Qed.

Lemma convert_to_euler_decodes_witness :
  ∃ yaw pitch roll,
    convert_to_euler obtuse_turn =
      Ok [entry obtuse_turn 0 3; entry obtuse_turn 1 3;
          entry obtuse_turn 2 3; yaw; pitch; roll] ∧
    let rad := λ a, a * PI / 180 in
    entry obtuse_turn 2 0 = - sin (rad pitch) ∧
    entry obtuse_turn 2 1 = cos (rad pitch) * sin (rad roll) ∧
    entry obtuse_turn 2 2 = cos (rad pitch) * cos (rad roll) ∧
    entry obtuse_turn 0 0 = cos (rad pitch) * cos (rad yaw) ∧
    entry obtuse_turn 1 0 = cos (rad pitch) * sin (rad yaw).
Proof.
  apply (convert_to_euler_decodes obtuse_turn);
    [apply is_3x4_mat34 | apply obtuse_turn_rotation].
Defined.

End transform_more.

(** ** Sample buffer, continued *)

Section buffer_more.
Import utils pose_buffer.
Local Open Scope R_scope.






(** Every call of [append] makes [len] one larger, also a call that
    raises. *)
Theorem append_len (m : matrix) (t : R) (b : PoseSampleBuffer) :
  len (append m t b).1 = S (len b).
Proof.
  unfold len. rewrite append_time, length_app. cbn [length]. lia.
Qed.

(** [len] after any calls is the number of [append] calls since the last
    [clear], raised ones included. *)
Theorem len_after_calls (cs : list call) (b : PoseSampleBuffer) :
  len (run cs b).1 = appends_since_clear cs (len b).
Proof.
  revert b. induction cs as [|c cs IH]; intros b; [done |].
  cbn [run]. destruct (do_call c b) as [b' r] eqn:Hc.
  specialize (IH b'). destruct (run cs b') as [b'' rs]. cbn [fst] in *.
  rewrite IH. unfold appends_since_clear. cbn [foldl]. f_equal.
  destruct c as [m t|]; cbn [do_call] in Hc.
  - replace b' with (append m t b).1 by (by rewrite Hc). apply append_len.
  - by injection Hc as <- _.
Qed.

Lemma append_staggered_witness :
  staggered (append quarter_turn 0 init).1.
Proof. apply (append_staggered quarter_turn 0 init), init_lock_step. Defined.



End buffer_more.

(** ** Device handle, continued *)

Section handle_more.
Import utils openvr device.
Local Open Scope R_scope.

(** With a rate of zero [sample] raises [ZeroDivisionError] before it
    reads the clock or asks the backend for anything. *)
Theorem sample_rate_zero (self : Device) (num_samples : Z) (w : World) :
  (sample self num_samples 0 w).2 = Raise ZeroDivisionError ∧
  clock_reads (sample self num_samples 0 w).1 = clock_reads w ∧
  fetches (sample self num_samples 0 w).1 = fetches w ∧
  slept (sample self num_samples 0 w).1 = slept w.
Proof.
  unfold sample, TrackingReference_sample, TrackedDevice_sample, bind, lift,
    print, modify.
  rewrite truediv_zero by reflexivity. by destruct (handle self).
Qed.

(** Asked for no samples, or for a negative number of them, [sample]
    returns the empty buffer after one read of the clock, without a
    snapshot and without sleeping. *)
Theorem sample_nothing (self : Device) (num_samples : Z) (sample_rate : R)
    (w : World) :
  (num_samples <= 0)%Z → sample_rate <> 0 →
  (sample self num_samples sample_rate w).2 = Ok pose_buffer.init ∧
  clock_reads (sample self num_samples sample_rate w).1
    = S (clock_reads w) ∧
  fetches (sample self num_samples sample_rate w).1 = fetches w ∧
  slept (sample self num_samples sample_rate w).1 = slept w.
Proof.
  intros Hn Hrate.
  unfold sample, TrackingReference_sample, TrackedDevice_sample, bind, lift,
    print, modify, time_time.
  rewrite truediv_nonzero by exact Hrate.
  replace (Z.to_nat num_samples) with 0%nat by lia.
  by destruct (handle self).
Qed.

Lemma sample_nothing_witness :
  let self := mkDevice TrackedDevice 0 "Tracker" in
  let w := mkWorld INR 0 (λ _, []) 0 [] [] in
  (sample self (-3) 100 w).2 = Ok pose_buffer.init ∧
  clock_reads (sample self (-3) 100 w).1 = S (clock_reads w) ∧
  fetches (sample self (-3) 100 w).1 = fetches w ∧
  slept (sample self (-3) 100 w).1 = slept w.
Proof.
  intros self w. apply (sample_nothing self (-3) 100 w); [lia | lra].
Defined.

(** What a returning loop of [sample] has done to the world. *)
Lemma sample_loop_effects (self : Device) (interval sample_start : R)
    (n : nat) :
  ∀ (rtn : pose_buffer.PoseSampleBuffer) (w w' : World)
    (buf : pose_buffer.PoseSampleBuffer),
    clock_non_decreasing w →
    sample_loop self interval sample_start n rtn w = (w', Ok buf) →
    clock w' = clock w ∧ snapshots w' = snapshots w ∧
    stdout w' = stdout w ∧
    fetches w' = (fetches w + n)%nat ∧
    clock_reads w' = (clock_reads w + 3 * n)%nat ∧
    ∃ naps, slept w' = slept w ++ naps ∧ (length naps ≤ n)%nat ∧
            Forall (λ d, 0 < d <= interval) naps.
Proof.
  induction n as [|n IH]; intros rtn w w' buf Hclock Hrun.
  - cbn in Hrun. injection Hrun as <- <-.
    repeat split; try lia. exists []. by rewrite app_nil_r.
  - cbn [sample_loop] in Hrun.
    unfold bind, time_time, get_pose, lift in Hrun. cbn in Hrun.
    destruct (getitem _ (index self)) as [p|]; [| discriminate Hrun].
    destruct (pose_buffer.append _ _ rtn) as [rtn' [[]|]];
      [| discriminate Hrun].
    assert (Hmono : clock w (clock_reads w)
                    <= clock w (S (S (clock_reads w))))
      by (apply Hclock; lia).
    destruct (Rlt_dec 0 _) as [Hnap|Hnap]; cbn in Hrun;
      apply IH in Hrun as (Hc & Hsn & Hout & Hf & Hr & naps & Hs & Hlen & Hall);
      try done; cbn in *;
      (repeat split; [done | done | done | lia | lia |]).
    + eexists (_ :: naps). rewrite Hs, <- app_assoc. split; [done |].
      split; [cbn; lia |]. constructor; [| done]. lra.
    + exists naps. split; [done |]. split; [lia | done].
Qed.

(** A run of [sample] that returns has fetched one snapshot per sample,
    read the clock three times per sample and once before, and slept at
    most once per sample, each time for a positive duration of at most
    [1 / sample_rate], when the clock does not go back. *)
Theorem sample_effects (self : Device) (num_samples : Z) (sample_rate : R)
    (w w' : World) (buf : pose_buffer.PoseSampleBuffer) :
  clock_non_decreasing w →
  sample self num_samples sample_rate w = (w', Ok buf) →
  fetches w' = (fetches w + Z.to_nat num_samples)%nat ∧
  clock_reads w' = (clock_reads w + 1 + 3 * Z.to_nat num_samples)%nat ∧
  ∃ naps, slept w' = slept w ++ naps ∧
          (length naps ≤ Z.to_nat num_samples)%nat ∧
          Forall (λ d, 0 < d <= 1 / sample_rate) naps.
Proof.
  intros Hclock Hrun.
  assert (Hbase : ∀ w0, clock_non_decreasing w0 →
            TrackedDevice_sample self num_samples sample_rate w0
              = (w', Ok buf) →
            fetches w' = (fetches w0 + Z.to_nat num_samples)%nat ∧
            clock_reads w'
              = (clock_reads w0 + 1 + 3 * Z.to_nat num_samples)%nat ∧
            ∃ naps, slept w' = slept w0 ++ naps ∧
                    (length naps ≤ Z.to_nat num_samples)%nat ∧
                    Forall (λ d, 0 < d <= 1 / sample_rate) naps).
  { clear. intros w Hclock Hrun.
    unfold TrackedDevice_sample, bind, lift, time_time in Hrun.
    unfold truediv in Hrun.
    destruct (Req_dec_T sample_rate 0); [discriminate Hrun |].
    apply sample_loop_effects in Hrun
      as (_ & _ & _ & Hf & Hr & naps & Hs & Hlen & Hall); [| done].
    cbn in *. split; [lia |]. split; [lia |]. by exists naps. }
  unfold sample in Hrun. destruct (handle self); [by apply Hbase |].
  unfold TrackingReference_sample, bind, print, modify in Hrun.
  by apply Hbase in Hrun.
Qed.

Lemma sample_effects_witness :
  let resting := mkPose true true identity_matrix [0; 0; 0] [0; 0; 0] in
  let w := mkWorld INR 0 (λ _, [resting]) 0 [] [] in
  let self := mkDevice TrackedDevice 0 "Tracker" in
  ∃ w' buf,
    sample self 10 100 w = (w', Ok buf) ∧
    fetches w' = (fetches w + Z.to_nat 10)%nat ∧
    clock_reads w' = (clock_reads w + 1 + 3 * Z.to_nat 10)%nat ∧
    ∃ naps, slept w' = slept w ++ naps ∧
            (length naps ≤ Z.to_nat 10)%nat ∧
            Forall (λ d, 0 < d <= 1 / 100) naps.
Proof.
  intros resting w self.
  destruct (sample_total self 10 100 w) as (w' & buf & Hrun); [lra | |].
  { intros k. exists resting. split; [reflexivity |].
    split; [apply is_3x4_mat34 | apply identity_divisors]. }
  exists w', buf. split; [exact Hrun |].
  apply (sample_effects self 10 100 w w' buf); [| exact Hrun].
  intros m n Hmn. cbn. apply le_INR, Hmn.
Defined.

(** The loop of [sample] neither prints nor depends on what was
    printed. *)
Lemma sample_loop_stdout (self : Device) (interval sample_start : R)
    (n : nat) (out : list string) :
  ∀ (rtn : pose_buffer.PoseSampleBuffer) (w : World),
    sample_loop self interval sample_start n rtn (set_stdout out w) =
      (set_stdout out (sample_loop self interval sample_start n rtn w).1,
       (sample_loop self interval sample_start n rtn w).2).
Proof.
  induction n as [|n IH]; intros rtn [c r sn f sl o]; [done |].
  cbn [sample_loop].
  unfold bind, time_time, get_pose, lift, time_sleep, modify, ret, raise,
    set_stdout.
  cbn [clock clock_reads snapshots fetches slept stdout fst snd].
  destruct (getitem _ (index self)) as [p|]; [| done].
  destruct (pose_buffer.append _ _ rtn) as [rtn' [[]|]]; [| done].
  destruct (Rlt_dec 0 _).
  - apply (IH rtn' (mkWorld c (S (S (S r))) sn (S f) (sl ++ [_]) o)).
  - apply (IH rtn' (mkWorld c (S (S (S r))) sn (S f) sl o)).
Qed.

(** [TrackingReference.sample] prints its notice once and then does what
    [TrackedDevice.sample] does: the same outcome and the same world, but
    for the line printed. *)
Theorem TrackingReference_sample_warns (self : Device) (num_samples : Z)
    (sample_rate : R) (w : World) :
  let base := TrackedDevice_sample self num_samples sample_rate w in
  stdout base.1 = stdout w ∧
  TrackingReference_sample self num_samples sample_rate w =
    (set_stdout (stdout w ++ [warning]) base.1, base.2).
Proof.
  cbv zeta. destruct w as [c r sn f sl o].
  unfold TrackingReference_sample, TrackedDevice_sample, bind, print, modify,
    lift, time_time.
  cbn [clock clock_reads snapshots fetches slept stdout fst snd].
  destruct (truediv 1 sample_rate) as [interval|]; [| done].
  set (w1 := mkWorld c (S r) sn f sl o).
  split.
  - pose proof (sample_loop_stdout self interval (c r)
                  (Z.to_nat num_samples) o pose_buffer.init w1) as Hsame.
    change (set_stdout o w1) with w1 in Hsame.
    rewrite Hsame at 1. reflexivity.
  - apply (sample_loop_stdout self interval (c r) (Z.to_nat num_samples)
             (o ++ [warning]) pose_buffer.init w1).
Qed.

(** The backend is asked for a snapshot exactly when none is supplied: a
    pose accessor called with a snapshot leaves the world as it is, and one
    called without fetches once and does nothing else. *)
Theorem accessors_fetch_once (self : Device) (w : World) :
  (∀ snap,
     (get_pose_euler self (Some snap) w).1 = w ∧
     (get_pose_matrix self (Some snap) w).1 = w ∧
     (get_velocity self (Some snap) w).1 = w ∧
     (get_angular_velocity self (Some snap) w).1 = w ∧
     (get_pose_quaternion self (Some snap) w).1 = w) ∧
  (let w1 := mkWorld (clock w) (clock_reads w) (snapshots w)
               (S (fetches w)) (slept w) (stdout w) in
   (get_pose_euler self None w).1 = w1 ∧
   (get_pose_matrix self None w).1 = w1 ∧
   (get_velocity self None w).1 = w1 ∧
   (get_angular_velocity self None w).1 = w1 ∧
   (get_pose_quaternion self None w).1 = w1).
Proof.
  unfold get_pose_euler, get_pose_matrix, get_velocity, get_angular_velocity,
    get_pose_quaternion, pose_or_fetch, get_pose, bind, lift, ret.
  split; [intros snap |]; cbv zeta;
    repeat split;
    repeat match goal with
    | |- context [getitem ?l ?n] => destruct (getitem l n) as [p|]
    | |- context [bPoseIsValid ?p] => destruct (bPoseIsValid p)
    | |- context [convert_to_euler ?m] => destruct (convert_to_euler m)
    | |- context [convert_to_quaternion ?m] =>
        destruct (convert_to_quaternion m)
    end; reflexivity.
Qed.



(** A snapshot that has no entry for the handle's slot makes the five pose
    accessors raise [IndexError]. *)
Theorem missing_slot_raises (self : Device)
    (pose : option (list TrackedDevicePose_t)) (w : World) :
  snapshot_used pose w !! index self = None →
  (get_pose_euler self pose w).2 = Raise IndexError ∧
  (get_pose_matrix self pose w).2 = Raise IndexError ∧
  (get_velocity self pose w).2 = Raise IndexError ∧
  (get_angular_velocity self pose w).2 = Raise IndexError ∧
  (get_pose_quaternion self pose w).2 = Raise IndexError.
Proof.
  intros Hp.
  unfold get_pose_euler, get_pose_matrix, get_velocity, get_angular_velocity,
    get_pose_quaternion, pose_or_fetch, get_pose, bind, lift, ret, getitem.
  destruct pose as [pose|]; cbn in Hp |- *; by rewrite Hp.
Qed.

Lemma missing_slot_raises_witness :
  let w := mkWorld (λ _, 0) 0 (λ _, []) 0 [] [] in
  let self := mkDevice TrackedDevice 3 "Tracker" in
  (get_pose_euler self None w).2 = Raise IndexError ∧
  (get_pose_matrix self None w).2 = Raise IndexError ∧
  (get_velocity self None w).2 = Raise IndexError ∧
  (get_angular_velocity self None w).2 = Raise IndexError ∧
  (get_pose_quaternion self None w).2 = Raise IndexError.
Proof.
  intros w self. apply (missing_slot_raises self None w). reflexivity.
Defined.

(** A zero [m00] stops [append] at the yaw, the first thing it computes. *)
Lemma append_zero_m00 (m : matrix) (t : R)
    (b : pose_buffer.PoseSampleBuffer) :
  is_3x4 m → entry m 0 0 = 0 →
  (pose_buffer.append m t b).2 = Raise ZeroDivisionError.
Proof.
  intros Hm H00.
  unfold pose_buffer.append, pose_buffer.item, pose_buffer.div,
    pose_buffer.time_append, pose_buffer.x_append, pose_buffer.y_append,
    pose_buffer.z_append.
  rewrite !(at2_entry m) by (done || lia).
  repeat lazymatch goal with
  | |- (bind (modify _) _ _).2 = _ => rewrite bind_modify; cbv beta
  | |- (bind (lift (Ok _)) _ _).2 = _ => rewrite bind_lift_Ok; cbv beta
  end.
  rewrite (truediv_zero (entry m 1 0) (entry m 0 0)) by exact H00.
  rewrite bind_lift_Raise. reflexivity.
Qed.

(** [sample] does not look at the validity flag of a pose: when the first
    snapshot has no entry for the slot it raises [IndexError], and when the
    matrix there has a zero [m00], as the matrix of zeros has, it raises
    [ZeroDivisionError], whatever the flags say. *)
Theorem sample_first_snapshot_faults (self : Device) (num_samples : Z)
    (sample_rate : R) (w : World) :
  (0 < num_samples)%Z → sample_rate <> 0 →
  (snapshots w (fetches w) !! index self = None →
   (sample self num_samples sample_rate w).2 = Raise IndexError) ∧
  (∀ p, snapshots w (fetches w) !! index self = Some p →
        let m := mDeviceToAbsoluteTracking p in
        is_3x4 m →
        entry m 0 0 = 0 →
        (sample self num_samples sample_rate w).2
          = Raise ZeroDivisionError).
Proof.
  intros Hn Hrate.
  destruct (Z.to_nat num_samples) as [|n] eqn:Hnat; [lia |].
  unfold sample, TrackingReference_sample, TrackedDevice_sample.
  split.
  - intros Hp. destruct (handle self);
      unfold bind, print, modify, lift, time_time, get_pose;
      rewrite truediv_nonzero by done; rewrite Hnat; cbn [sample_loop];
      unfold bind, time_time, get_pose, lift, getitem; cbn;
      by rewrite Hp.
  - intros p Hp Hm Hbad. destruct (handle self);
      unfold bind, print, modify, lift, time_time, get_pose;
      rewrite truediv_nonzero by done; rewrite Hnat; cbn [sample_loop];
      unfold bind, time_time, get_pose, lift, getitem; cbn;
      rewrite Hp;
      match goal with
      | |- context [pose_buffer.append ?m ?t ?b] =>
          pose proof (append_zero_m00 m t b Hm Hbad) as Hfault;
          destruct (pose_buffer.append m t b) as [rtn' r]
      end; cbn in Hfault; by subst r.
Qed.

Lemma sample_first_snapshot_faults_witness :
  let lost := mkPose true false (mat34 0 0 0 0 0 0 0 0 0 0 0 0)
                [0; 0; 0] [0; 0; 0] in
  let w := mkWorld INR 0 (λ _, [lost]) 0 [] [] in
  let self := mkDevice TrackedDevice 0 "Tracker" in
  (sample self 10 100 w).2 = Raise ZeroDivisionError ∧
  (sample (mkDevice TrackedDevice 1 "Tracker") 10 100 w).2
    = Raise IndexError.
Proof.
  intros lost w self. split.
  - destruct (sample_first_snapshot_faults self 10 100 w) as [_ Hzde];
      [lia | lra |].
    apply (Hzde lost); [reflexivity | apply is_3x4_mat34 | reflexivity].
  - destruct (sample_first_snapshot_faults
                (mkDevice TrackedDevice 1 "Tracker") 10 100 w)
      as [Hindex _]; [lia | lra |].
    apply Hindex. reflexivity.
Defined.

(** Shifting right by [n] and masking with one reads bit [n]. *)
Lemma shift_mask_testbit (a n : Z) :
  (0 <= n)%Z → py_bool (Z.land (Z.shiftr a n) 1) = Z.testbit a n.
Proof.
  intros Hn. unfold py_bool.
  change 1%Z with (Z.ones 1) at 1. rewrite Z.land_ones by lia.
  change (2 ^ 1)%Z with 2%Z. rewrite <- Z.bit0_mod.
  rewrite Z.shiftr_spec by lia. rewrite Z.add_0_l.
  by destruct (Z.testbit a n).
Qed.

(** The flags of [get_controller_inputs] are bits of the two button masks:
    the menu button is bit 1, the grip bit 2 and the trackpad bit 32 of the
    pressed mask, the trackpad touch bit 32 of the touched mask; the trigger
    is the first coordinate of axis 1 and the trackpad the two coordinates
    of axis 0.  The status that the backend returns with the state plays no
    part. *)
Theorem controller_inputs_bits
    (getControllerState : nat -> bool * VRControllerState_t) (self : Device)
    (a0 a1 : VRControllerAxis_t) :
  let state := (getControllerState (index self)).2 in
  rAxis state !! 0%nat = Some a0 →
  rAxis state !! 1%nat = Some a1 →
  ∃ d, get_controller_inputs getControllerState self = Ok d ∧
    d !! "menu_button" = Some (PyBool (Z.testbit (ulButtonPressed state) 1)) ∧
    d !! "grip_button" = Some (PyBool (Z.testbit (ulButtonPressed state) 2)) ∧
    d !! "trackpad_pressed"
      = Some (PyBool (Z.testbit (ulButtonPressed state) 32)) ∧
    d !! "trackpad_touched"
      = Some (PyBool (Z.testbit (ulButtonTouched state) 32)) ∧
    d !! "trigger" = Some (PyFloat (x a1)) ∧
    d !! "trackpad_x" = Some (PyFloat (x a0)) ∧
    d !! "trackpad_y" = Some (PyFloat (y a0)) ∧
    d !! "ulButtonPressed" = Some (PyInt (ulButtonPressed state)) ∧
    d !! "ulButtonTouched" = Some (PyInt (ulButtonTouched state)) ∧
    d !! "unPacketNum" = Some (PyInt (unPacketNum state)) ∧
    size d = 10%nat.
Proof.
  intros state H0 H1. unfold get_controller_inputs.
  subst state. destruct (getControllerState (index self)) as [status state].
  cbn [snd] in *. unfold controller_state_to_dict.
  rewrite (getitem_Some _ _ _ H0), (getitem_Some _ _ _ H1).
  cbn [mbind result_bind mret result_ret]. eexists. split; [reflexivity |].
  rewrite !shift_mask_testbit by lia.
  repeat split; by simplify_map_eq.
Qed.

Lemma controller_inputs_bits_witness :
  let grip_only := mkControllerState 7 4 0
                     [mkAxis 0 0; mkAxis 1 0; mkAxis 0 0; mkAxis 0 0;
                      mkAxis 0 0] in
  let self := mkDevice TrackedDevice 1 "Controller" in
  ∃ d, get_controller_inputs (λ _, (false, grip_only)) self = Ok d ∧
       d !! "menu_button" = Some (PyBool false) ∧
       d !! "grip_button" = Some (PyBool true) ∧
       d !! "trigger" = Some (PyFloat 1).
Proof.
  intros grip_only self.
  destruct (controller_inputs_bits (λ _, (false, grip_only)) self
              (mkAxis 0 0) (mkAxis 1 0) eq_refl eq_refl)
    as (d & Hd & Hmenu & Hgrip & _ & _ & Htrigger & _).
  exists d. split; [exact Hd |]. split; [exact Hmenu |].
  split; [exact Hgrip | exact Htrigger].
Defined.

(** [get_serial] asks the backend once per handle: a call served from the
    cache returns the cached serial number and changes nothing, and a call
    that returns leaves its result in the cache, where no later call of
    [get_serial] removes or changes it, whatever the backend answers by
    then. *)
Theorem get_serial_cached (oid : nat) (self : Device) (st : SerialStore)
    (v : string) :
  (get_serial oid self st).2 = Ok v →
  serial_cache (get_serial oid self st).1 !! oid = Some v ∧
  (∀ st', serial_cache st' !! oid = Some v →
          get_serial oid self st' = (st', Ok v)) ∧
  (∀ st' oid' self', serial_cache st' !! oid = Some v →
          serial_cache (get_serial oid' self' st').1 !! oid = Some v).
Proof.
  intros Hcall. split; [| split].
  - revert Hcall. unfold get_serial.
    destruct (serial_cache st !! oid) as [u|] eqn:Hu.
    + cbn. by intros [= <-].
    + destruct (serial_answers st _ _); [| done].
      cbn. intros [= <-]. apply lookup_insert_eq.
  - intros st' Hst'. unfold get_serial. by rewrite Hst'.
  - intros st' oid' self' Hst'. unfold get_serial.
    destruct (serial_cache st' !! oid') as [u|] eqn:Hu; [done |].
    destruct (serial_answers st' _ _); [| done].
    cbn. rewrite lookup_insert_ne; [done | congruence].
Qed.

Lemma get_serial_cached_witness :
  let self := mkDevice TrackedDevice 2 "Tracker" in
  let st := mkSerialStore ∅ 0 (λ _ _, Ok "LHR-1") in
  let st' := mkSerialStore {[ 5%nat := "LHR-1" ]} 1 (λ _ _, Ok "LHR-2") in
  get_serial 5 self st' = (st', Ok "LHR-1").
Proof.
  intros self st st'.
  apply (get_serial_cached 5 self st "LHR-1"); reflexivity.
Defined.

End handle_more.

(** ** Device registry, continued *)

Section registry_more.
Import utils openvr device tracker.

Lemma poll_ignores_foreign_events_core (vr : IVRSystem)
    (events : list VREvent_t) (t : Tracker) :
  Forall (λ event,
            eventType event ≠ VREvent_TrackedDeviceActivated ∧
            (eventType event = VREvent_TrackedDeviceDeactivated →
             device_index_map t !! trackedDeviceIndex event = None))
    events →
  poll_vr_events vr events t = (t, Ok tt).
Proof.
  induction 1 as [|event events [Hact Hdeact] _ IH]; [done |].
  cbn [poll_vr_events]. unfold bind.
  destruct (eventType event) eqn:Htype; [done | |].
  - rewrite (Hdeact eq_refl).
    destruct (decide (is_Some None)) as [[? [=]]|]. exact IH.
  - exact IH.
Qed.

(** [poll_vr_events] passes over the events that are not for it: an event
    that is neither a connect nor a disconnect, and a disconnect of a slot
    that is not tracked, leave the registry as it is and raise nothing. *)
Theorem poll_ignores_foreign_events (vr : IVRSystem)
    (events : list VREvent_t) (t : Tracker) :
  Forall (λ event,
            eventType event ≠ VREvent_TrackedDeviceActivated ∧
            (eventType event = VREvent_TrackedDeviceDeactivated →
             device_index_map t !! trackedDeviceIndex event = None))
    events →
  poll_vr_events vr events t = (t, Ok tt).
Proof. exact (poll_ignores_foreign_events_core vr events t). Qed.

Lemma poll_ignores_foreign_events_witness :
  let vr := mkVR (λ _, TrackedDeviceClass_Controller) (λ _, "LHR-0") in
  poll_vr_events vr [mkEvent VREvent_TrackedDeviceDeactivated 4;
                     mkEvent (VREvent_Other 200) 0] empty
    = (empty, Ok tt).
Proof.
  intros vr. apply (poll_ignores_foreign_events vr).
  repeat constructor; done.
Defined.

(** The constructor with a configuration never fills the slot map. *)
Lemma init_config_slot_map (device_serial : string) (i : nat)
    (config : list ConfigDevice) :
  ∀ t, device_index_map (init_config_slot device_serial i config t).1
       = device_index_map t.
Proof.
  induction config as [|device config IH]; intros t; [done |].
  cbn [init_config_slot]. unfold bind at 1.
  destruct (decide (device_serial = serial device)); [| apply IH].
  unfold object_names_append, object_names_get, bind, set_object_names,
    set_devices, modify, dict_get.
  destruct (object_names t !! type device); [| done].
  destruct (decide (type device = "Tracking Reference")); cbn;
    by rewrite IH.
Qed.

Lemma init_slots_config_map (vr : IVRSystem)
    (poses : list TrackedDevicePose_t) (config : list ConfigDevice)
    (idxs : list nat) :
  ∀ t, device_index_map (init_slots vr poses (Some config) idxs t).1
       = device_index_map t.
Proof.
  induction idxs as [|i idxs IH]; intros t; [done |].
  cbn [init_slots]. unfold bind at 1. unfold lift at 1.
  destruct (getitem poses i) as [p|]; [| done].
  unfold bind at 1.
  destruct (bDeviceIsConnected p).
  - pose proof (init_config_slot_map (getSerialNumber vr i) i config t)
      as Hslot.
    destruct (init_config_slot _ i config t) as [t' [[]|]]; cbn in Hslot;
      [| done].
    by rewrite IH.
  - apply IH.
Qed.

(** A registry built from a configuration tracks no slot: its slot map is
    empty, so that removing any slot raises and disconnect events are passed
    over, whatever devices it holds. *)
Theorem init_with_config_tracks_no_slot (vr : IVRSystem)
    (poses : list TrackedDevicePose_t) (config : list ConfigDevice) :
  let t := (init vr poses (Some config)).1 in
  device_index_map t = ∅ ∧
  (∀ i, remove_tracked_device i t = (t, Raise (InvalidDeviceIndex i))) ∧
  (∀ events,
     Forall (λ event, eventType event = VREvent_TrackedDeviceDeactivated)
       events →
     poll_vr_events vr events t = (t, Ok tt)).
Proof.
  intros t.
  assert (Hmap : device_index_map t = ∅).
  { unfold t, init. by rewrite init_slots_config_map. }
  split; [exact Hmap |]. split.
  - intros i. unfold remove_tracked_device. by rewrite Hmap, lookup_empty.
  - intros events Hall. apply poll_ignores_foreign_events_core.
    eapply Forall_impl; [exact Hall |]. cbn. intros event Htype.
    split; [by rewrite Htype |]. intros _. by rewrite Hmap.
Qed.

Lemma add_tracked_device_as (vr : IVRSystem) (i : nat)
    (prefix cls : string) (h : handle_class) :
  class_entry (getTrackedDeviceClass vr i) = Some (prefix, cls, h) →
  add_tracked_device vr i = add_as prefix cls h i.
Proof.
  unfold add_tracked_device, class_entry.
  destruct (getTrackedDeviceClass vr i); intros [= <- <- <-]; done.
Qed.

Lemma class_entry_prefix (c : ETrackedDeviceClass) (prefix cls : string)
    (h : handle_class) :
  class_entry c = Some (prefix, cls, h) → name_prefix cls = Some prefix.
Proof. destruct c; intros [= <- <- <-]; done. Qed.

Lemma add_tracked_device_fresh_core (vr : IVRSystem) (i : nat) (t : Tracker)
    (device_name : string) :
  well_formed t →
  next_name vr i t = Some device_name →
  devices t !! device_name = None →
  let t' := (add_tracked_device vr i t).1 in
  (add_tracked_device vr i t).2 = Ok tt ∧
  well_formed t' ∧
  device_index_map t' !! i = Some device_name ∧
  is_device_connected t' device_name = true ∧
  (∃ d, devices t' !! device_name = Some d ∧ index d = i) ∧
  (∀ n, n ≠ device_name → devices t' !! n = devices t !! n) ∧
  size (devices t') = S (size (devices t)).
Proof.
  intros Hwf Hnext Hfree. unfold next_name in Hnext.
  destruct (class_entry (getTrackedDeviceClass vr i))
    as [[[prefix cls] h]|] eqn:Hentry; [| done].
  destruct (object_names t !! cls) as [names|] eqn:Hnames; [| done].
  cbn in Hnext. injection Hnext as <-.
  rewrite (add_tracked_device_as vr i prefix cls h Hentry).
  pose proof (add_as_well_formed prefix cls h i t names Hwf Hnames Hfree)
    as Hwf'.
  rewrite (add_as_eq prefix cls h i t names Hnames) in Hwf' |- *.
  cbv zeta. cbn [fst snd devices device_index_map] in *.
  split; [done |]. split; [exact Hwf' |].
  split; [apply lookup_insert_eq |]. split.
  { unfold is_device_connected. cbn [devices]. apply bool_decide_eq_true.
    rewrite lookup_insert_eq. by eexists. }
  split; [eexists; by rewrite lookup_insert_eq |].
  split; [intros n Hn; by rewrite lookup_insert_ne |].
  by apply map_size_insert_None.
Qed.

(** Adding a slot of a recognised class under a name that no handle has
    yet: the call returns, the registry stays well formed, the slot is
    tracked under the new name, the name is connected with a handle for that
    slot, and the other handles are as before. *)
Theorem add_tracked_device_fresh (vr : IVRSystem) (i : nat) (t : Tracker)
    (device_name : string) :
  well_formed t →
  next_name vr i t = Some device_name →
  devices t !! device_name = None →
  let t' := (add_tracked_device vr i t).1 in
  (add_tracked_device vr i t).2 = Ok tt ∧
  well_formed t' ∧
  device_index_map t' !! i = Some device_name ∧
  is_device_connected t' device_name = true ∧
  (∃ d, devices t' !! device_name = Some d ∧ index d = i) ∧
  (∀ n, n ≠ device_name → devices t' !! n = devices t !! n) ∧
  size (devices t') = S (size (devices t)).
Proof. exact (add_tracked_device_fresh_core vr i t device_name). Qed.

Lemma add_tracked_device_fresh_witness :
  let vr := mkVR (λ _, TrackedDeviceClass_HMD) (λ _, "LHR-0") in
  let t' := (add_tracked_device vr 0 empty).1 in
  (add_tracked_device vr 0 empty).2 = Ok tt ∧
  well_formed t' ∧
  device_index_map t' !! 0%nat = Some "hmd_1" ∧
  is_device_connected t' "hmd_1" = true.
Proof.
  intros vr t'.
  destruct (add_tracked_device_fresh vr 0 empty "hmd_1")
    as (Hok & Hwf & Hslot & Hconn & _);
    [apply empty_well_formed | reflexivity | reflexivity |].
  done.
Defined.

Lemma remove_tracked_device_eq (t : Tracker) (i : nat)
    (device_name : string) (d : Device) (names names' : list string) :
  device_index_map t !! i = Some device_name →
  devices t !! device_name = Some d →
  object_names t !! device_class d = Some names →
  list_remove device_name names = Ok names' →
  remove_tracked_device i t =
    (mkTracker (<[device_class d := names']> (object_names t))
       (delete device_name (devices t)) (delete i (device_index_map t)),
     Ok tt).
Proof.
  intros Hi Hd Hnames Hrem. unfold remove_tracked_device. rewrite Hi.
  unfold bind, devices_get, object_names_get, dict_get, lift,
    set_object_names, set_devices, set_device_index_map, modify.
  rewrite Hd, Hnames, Hrem. cbn. rewrite Hd. reflexivity.
Qed.

Lemma remove_tracked_device_tracked_core (t : Tracker) (i : nat)
    (device_name : string) :
  well_formed t →
  device_index_map t !! i = Some device_name →
  let t' := (remove_tracked_device i t).1 in
  (remove_tracked_device i t).2 = Ok tt ∧
  well_formed t' ∧
  device_index_map t' !! i = None ∧
  is_device_connected t' device_name = false ∧
  (∀ n, n ≠ device_name → devices t' !! n = devices t !! n) ∧
  (∀ j, j ≠ i → device_index_map t' !! j = device_index_map t !! j) ∧
  size (devices t') = pred (size (devices t)).
Proof.
  intros Hwf Hi.
  destruct (remove_tracked_well_formed t i device_name Hwf Hi)
    as (t1 & Hrun & Hwf1).
  destruct Hwf as ((Hslots & Hexact) & Hlisted & Hnodup & Hinj).
  destruct (Hslots i device_name Hi) as [d Hd].
  destruct (Hlisted device_name d Hd) as [names Hnames].
  assert (Hin : device_name ∈ names).
  { apply (Hexact _ _ Hnames). by exists d. }
  destruct (list_remove_NoDup device_name names Hin (Hnodup _ _ Hnames))
    as (names' & Hrem & _ & _).
  rewrite (remove_tracked_device_eq t i device_name d names names'
             Hi Hd Hnames Hrem) in Hrun |- *.
  injection Hrun as <-. cbv zeta.
  cbn [fst snd devices device_index_map] in *.
  split; [done |]. split; [exact Hwf1 |].
  split; [apply lookup_delete_eq |]. split.
  { unfold is_device_connected. cbn [devices]. apply bool_decide_eq_false.
    rewrite lookup_delete_eq. by intros [? ?]. }
  split; [intros n Hn; by rewrite lookup_delete_ne |].
  split; [intros j Hj; by rewrite lookup_delete_ne |].
  apply map_size_delete_Some. by eexists.
Qed.

(** Removing a tracked slot of a well-formed registry: the call returns,
    the registry stays well formed, the slot is no longer tracked, its name
    is no longer connected, one handle less is held, and the other slots and
    handles are as before. *)
Theorem remove_tracked_device_tracked (t : Tracker) (i : nat)
    (device_name : string) :
  well_formed t →
  device_index_map t !! i = Some device_name →
  let t' := (remove_tracked_device i t).1 in
  (remove_tracked_device i t).2 = Ok tt ∧
  well_formed t' ∧
  device_index_map t' !! i = None ∧
  is_device_connected t' device_name = false ∧
  (∀ n, n ≠ device_name → devices t' !! n = devices t !! n) ∧
  (∀ j, j ≠ i → device_index_map t' !! j = device_index_map t !! j) ∧
  size (devices t') = pred (size (devices t)).
Proof. exact (remove_tracked_device_tracked_core t i device_name). Qed.

Lemma remove_tracked_device_tracked_witness :
  let vr := mkVR (λ _, TrackedDeviceClass_HMD) (λ _, "LHR-0") in
  let t := (add_tracked_device vr 0 empty).1 in
  (remove_tracked_device 0 t).2 = Ok tt ∧
  is_device_connected (remove_tracked_device 0 t).1 "hmd_1" = false.
Proof.
  intros vr t.
  destruct (add_tracked_device_fresh_core vr 0 empty "hmd_1")
    as (_ & Hwf & Hslot & _);
    [apply empty_well_formed | reflexivity | reflexivity |].
  destruct (remove_tracked_device_tracked t 0 "hmd_1" Hwf Hslot)
    as (Hok & _ & _ & Hgone & _).
  done.
Defined.

Lemma list_remove_last (device_name : string) (names : list string) :
  device_name ∉ names →
  list_remove device_name (names ++ [device_name]) = Ok names.
Proof.
  induction names as [|n names IH]; intros Hnotin; cbn.
  - by rewrite decide_True.
  - apply not_elem_of_cons in Hnotin as [Hne Hnotin].
    rewrite decide_False by done. by rewrite IH.
Qed.

(** On a registry that has only added devices, connecting a slot that is
    not tracked and disconnecting it again gives back the registry as it
    was. *)
Theorem add_then_remove (vr : IVRSystem) (i : nat) (t : Tracker) :
  well_formed t → sequential t →
  device_index_map t !! i = None →
  is_Some (class_entry (getTrackedDeviceClass vr i)) →
  (add_tracked_device vr i t).2 = Ok tt ∧
  remove_tracked_device i (add_tracked_device vr i t).1 = (t, Ok tt).
Proof.
  intros Hwf Hseq Hi [[[prefix cls] h] Hentry].
  pose proof (class_entry_prefix _ _ _ _ Hentry) as Hprefix.
  destruct (proj1 Hseq _ _ Hprefix) as (names & Hnames & _).
  pose proof (sequential_fresh t cls prefix names Hwf Hseq Hprefix Hnames)
    as Hfree.
  rewrite (add_tracked_device_as vr i prefix cls h Hentry).
  rewrite (add_as_eq prefix cls h i t names Hnames). cbv zeta. cbn [fst snd].
  split; [done |].
  set (device_name := prefix +:+ pretty (length names + 1)) in *.
  assert (Hnotin : device_name ∉ names).
  { intros Hin. destruct Hwf as ((_ & Hexact) & _).
    apply (Hexact cls names Hnames) in Hin as (d & Hd & _). congruence. }
  rewrite (remove_tracked_device_eq _ i device_name
             (mkDevice h i cls) (names ++ [device_name]) names).
  - cbn [object_names devices device_index_map device_class].
    rewrite insert_insert_eq, (insert_id _ _ _ Hnames).
    rewrite (delete_insert_id _ _ _ Hfree), (delete_insert_id _ _ _ Hi).
    by destruct t.
  - cbn. apply lookup_insert_eq.
  - cbn. apply lookup_insert_eq.
  - cbn. apply lookup_insert_eq.
  - by apply list_remove_last.
Qed.

Lemma add_then_remove_witness :
  let vr := mkVR (λ _, TrackedDeviceClass_GenericTracker) (λ _, "LHR-0") in
  (add_tracked_device vr 3 empty).2 = Ok tt ∧
  remove_tracked_device 3 (add_tracked_device vr 3 empty).1 = (empty, Ok tt).
Proof.
  intros vr.
  apply (add_then_remove vr 3 empty);
    [apply empty_well_formed | apply empty_well_formed | reflexivity
    | by eexists].
Defined.

(** The loop of [rename_device] replaces the old name wherever it stands
    in the list of the handle's class. *)
Lemma rename_loop_replaces (old_device_name new_device_name : string)
    (d : Device) (suffix : list string) :
  ∀ (done_names : list string) (t : Tracker),
    devices t !! new_device_name = Some d →
    object_names t !! device_class d = Some (done_names ++ suffix) →
    rename_loop old_device_name new_device_name
      (seq (length done_names) (length suffix)) t =
      (mkTracker
         (<[device_class d :=
              done_names ++ replace_name old_device_name new_device_name
                              suffix]> (object_names t))
         (devices t) (device_index_map t),
       Ok tt).
Proof.
  induction suffix as [|n suffix IH]; intros done_names t Hd Hnames.
  - cbn. rewrite insert_id by done. by destruct t.
  - cbn [length seq rename_loop].
    unfold bind at 1. unfold devices_get at 1, dict_get. rewrite Hd.
    unfold bind at 1. unfold object_names_get at 1, dict_get.
    rewrite Hnames.
    unfold bind at 1. unfold lift at 1, getitem.
    rewrite list_lookup_middle by done.
    unfold bind at 1.
    assert (Hsplit : ∀ n', done_names ++ n' :: suffix
                           = (done_names ++ [n']) ++ suffix)
      by (intros n'; by rewrite <- app_assoc).
    destruct (decide (n = old_device_name)) as [->|Hne].
    + unfold set_object_names, modify.
      cbn [object_names devices device_index_map].
      replace (S (length done_names))
        with (length (done_names ++ [new_device_name]))
        by (rewrite length_app; cbn; lia).
      rewrite (IH (done_names ++ [new_device_name])).
      * cbn [object_names devices device_index_map].
        rewrite insert_insert_eq. unfold replace_name. cbn [fmap list_fmap].
        rewrite decide_True by done. by rewrite <- app_assoc.
      * done.
      * cbn [object_names]. rewrite lookup_insert_eq. f_equal.
        replace (length done_names) with (length done_names + 0)%nat
          by lia.
        rewrite insert_app_r. cbn. by rewrite <- app_assoc.
    + unfold ret.
      replace (S (length done_names)) with (length (done_names ++ [n]))
        by (rewrite length_app; cbn; lia).
      rewrite (IH (done_names ++ [n])); [| done | by rewrite <- Hsplit].
      unfold replace_name. cbn [fmap list_fmap].
      rewrite decide_False by done. by rewrite <- app_assoc.
Qed.

Lemma rename_device_eq (t : Tracker)
    (old_device_name new_device_name : string) (d : Device)
    (names : list string) :
  devices t !! old_device_name = Some d →
  object_names t !! device_class d = Some names →
  rename_device old_device_name new_device_name t =
    (mkTracker
       (<[device_class d :=
            replace_name old_device_name new_device_name names]>
          (object_names t))
       (<[new_device_name := d]> (delete old_device_name (devices t)))
       (device_index_map t),
     Ok tt).
Proof.
  intros Hd Hnames. unfold rename_device.
  unfold bind at 1. unfold devices_get at 1, dict_get. rewrite Hd.
  unfold bind at 1. unfold set_devices at 1, modify.
  unfold bind at 1. unfold set_devices at 1, modify.
  cbn [object_names devices device_index_map].
  unfold bind at 1. unfold devices_get at 1, dict_get.
  cbn [devices]. rewrite lookup_insert_eq.
  unfold bind at 1. unfold object_names_get at 1, dict_get.
  cbn [object_names]. rewrite Hnames.
  apply (rename_loop_replaces old_device_name new_device_name d names []);
    cbn; [apply lookup_insert_eq | done].
Qed.

Lemma elem_of_replace_name (old_device_name new_device_name n : string)
    (names : list string) :
  n ∈ replace_name old_device_name new_device_name names ↔
  (n = new_device_name ∧ old_device_name ∈ names) ∨
  (n ∈ names ∧ n ≠ old_device_name).
Proof.
  unfold replace_name. rewrite list_elem_of_fmap. split.
  - intros (n0 & -> & Hn0). case_decide; subst; auto.
  - intros [[-> Hold] | [Hn Hne]].
    + exists old_device_name. by rewrite decide_True.
    + exists n. by rewrite decide_False.
Qed.

(** Renaming a device that exists: the call returns, the handle is found
    under the new name and the slot map is not touched.  When the new name
    was free the old name is gone, the number of handles is the same and the
    class lists still say which names have which class; when the new name
    was that of another device, that device's handle is lost. *)
Theorem rename_device_known (t : Tracker)
    (old_device_name new_device_name : string) (d : Device)
    (names : list string) :
  devices t !! old_device_name = Some d →
  object_names t !! device_class d = Some names →
  let t' := (rename_device old_device_name new_device_name t).1 in
  (rename_device old_device_name new_device_name t).2 = Ok tt ∧
  devices t' !! new_device_name = Some d ∧
  object_names t' !! device_class d
    = Some (replace_name old_device_name new_device_name names) ∧
  device_index_map t' = device_index_map t ∧
  (devices t !! new_device_name = None →
   is_device_connected t' old_device_name = false ∧
   size (devices t') = size (devices t) ∧
   (class_lists_exact t → class_lists_exact t')) ∧
  (old_device_name ≠ new_device_name →
   is_Some (devices t !! new_device_name) →
   size (devices t') = pred (size (devices t))).
Proof.
  intros Hd Hnames.
  rewrite (rename_device_eq t old_device_name new_device_name d names
             Hd Hnames).
  cbv zeta. cbn [fst snd object_names devices device_index_map].
  split; [done |]. split; [apply lookup_insert_eq |].
  split; [apply lookup_insert_eq |]. split; [done |]. split.
  - intros Hfree.
    assert (Hne : old_device_name ≠ new_device_name) by congruence.
    split; [| split].
    + unfold is_device_connected. cbn [devices].
      apply bool_decide_eq_false.
      rewrite lookup_insert_ne, lookup_delete_eq by done. by intros [? ?].
    + rewrite map_size_insert_None
        by (by rewrite lookup_delete_ne).
      rewrite map_size_delete_Some by (by eexists).
      destruct (size (devices t)) eqn:Hsize; [| done].
      apply map_size_empty_inv in Hsize. rewrite Hsize in Hd.
      by rewrite lookup_empty in Hd.
    + intros Hexact cls names0. cbn [object_names devices].
      assert (Hold : old_device_name ∈ names).
      { apply (Hexact _ _ Hnames). by exists d. }
      assert (Hlookup : ∀ n, n ≠ new_device_name → n ≠ old_device_name →
                <[new_device_name := d]> (delete old_device_name (devices t))
                  !! n = devices t !! n).
      { intros n H1 H2. by rewrite lookup_insert_ne, lookup_delete_ne. }
      rewrite lookup_insert. case_decide as Hc.
      * intros [= <-]. subst cls. intros n.
        rewrite elem_of_replace_name. split.
        -- intros [[-> _] | [Hn Hno]].
           ++ exists d. by rewrite lookup_insert_eq.
           ++ apply (Hexact _ _ Hnames) in Hn as (d' & Hd' & Hcls).
              exists d'. rewrite Hlookup; [done | congruence | done].
        -- intros (d' & Hd' & Hcls).
           destruct (decide (n = new_device_name)) as [->|Hnn];
             [by left |].
           right. revert Hd'. rewrite lookup_insert_ne by done.
           rewrite lookup_delete. case_decide as Hno; [done |].
           intros Hd'. split; [| done].
           apply (Hexact _ _ Hnames). by exists d'.
      * intros Hcls n. split.
        -- intros Hn.
           apply (Hexact _ _ Hcls) in Hn as (d' & Hd' & Hcls').
           exists d'. rewrite Hlookup; [done | congruence | congruence].
        -- intros (d' & Hd' & Hcls'). revert Hd'.
           rewrite lookup_insert. case_decide as Hnn;
             [intros [= <-]; congruence |].
           rewrite lookup_delete. case_decide as Hno; [done |].
           intros Hd'. apply (Hexact _ _ Hcls). by exists d'.
  - intros Hne [d2 Hd2].
    rewrite map_size_insert_Some
      by (rewrite lookup_delete_ne by done; by eexists).
    apply map_size_delete_Some. by eexists.
Qed.

Lemma rename_device_known_witness :
  let vr := mkVR (λ _, TrackedDeviceClass_Controller) (λ _, "LHR-0") in
  let t := (add_tracked_device vr 0 empty).1 in
  let t' := (rename_device "controller_1" "left_hand" t).1 in
  (rename_device "controller_1" "left_hand" t).2 = Ok tt ∧
  devices t' !! "left_hand" = Some (mkDevice TrackedDevice 0 "Controller") ∧
  object_names t' !! "Controller" = Some ["left_hand"] ∧
  device_index_map t' = device_index_map t.
Proof.
  intros vr t t'.
  destruct (rename_device_known t "controller_1" "left_hand"
              (mkDevice TrackedDevice 0 "Controller") ["controller_1"])
    as (Hok & Hnew & Hlist & Hmap & _); [reflexivity | reflexivity |].
  done.
Defined.

(** The loop of [get_devices_by_type] returns the handles of the names, in
    their order, and raises [KeyError] when a name has none. *)
Lemma get_devices_loop_mapM (t : Tracker) (names : list string) :
  ∀ found,
    get_devices_loop t names found =
      match mapM (λ n, devices t !! n) names with
      | Some ds => Ok (found ++ ds)
      | None => Raise KeyError
      end.
Proof.
  induction names as [|n names IH]; intros found; cbn.
  - by rewrite app_nil_r.
  - unfold dict_get. destruct (devices t !! n) as [d|]; cbn; [| done].
    rewrite IH. destruct (mapM _ names); cbn; [| done].
    by rewrite <- app_assoc.
Qed.

(** [get_devices_by_type] returns the empty list for a type that is no
    key; for a type that is one it raises [KeyError] exactly when a listed
    name has no handle, and otherwise returns the handles of the listed
    names in the order of the list, which all have that class when the
    class lists are exact. *)
Theorem get_devices_by_type_result (t : Tracker) (device_type : string) :
  (object_names t !! device_type = None →
   get_devices_by_type t device_type = Ok []) ∧
  (∀ names, object_names t !! device_type = Some names →
     (get_devices_by_type t device_type = Raise KeyError ↔
      ∃ n, n ∈ names ∧ devices t !! n = None) ∧
     (∀ ds, get_devices_by_type t device_type = Ok ds ↔
            Forall2 (λ n d, devices t !! n = Some d) names ds) ∧
     (class_lists_exact t →
      ∃ ds, get_devices_by_type t device_type = Ok ds ∧
            length ds = length names ∧
            Forall (λ d, device_class d = device_type) ds)).
Proof.
  unfold get_devices_by_type. split.
  - intros Hnone. by rewrite Hnone.
  - intros names Hnames. rewrite Hnames. cbn [default].
    rewrite get_devices_loop_mapM.
    assert (Hraise : mapM (λ n, devices t !! n) names = None ↔
                     ∃ n, n ∈ names ∧ devices t !! n = None).
    { rewrite mapM_None, Exists_exists. done. }
    split; [| split].
    + destruct (mapM _ names) eqn:Hm; split; [done | | | done].
      * intros Hex. apply Hraise in Hex. congruence.
      * intros _. by apply Hraise.
    + intros ds. destruct (mapM _ names) as [ds'|] eqn:Hm; cbn.
      * split.
        -- intros [= <-]. by apply mapM_Some.
        -- intros Hall. apply mapM_Some in Hall. congruence.
      * split; [done |]. intros Hall. apply mapM_Some in Hall. congruence.
    + intros Hexact.
      destruct (mapM _ names) as [ds|] eqn:Hm.
      * exists ds. cbn. split; [done |].
        apply mapM_Some in Hm. split; [symmetry; by eapply Forall2_length |].
        apply Forall_forall. intros d Hd.
        apply list_elem_of_lookup in Hd as [k Hk].
        destruct (Forall2_lookup_r _ _ _ _ _ Hm Hk) as (n & Hn & Hnd).
        assert (Hin : n ∈ names) by (apply list_elem_of_lookup; eauto).
        apply (Hexact _ _ Hnames) in Hin as (d' & Hd' & Hcls). congruence.
      * exfalso. destruct (proj1 Hraise eq_refl) as (n & Hin & Hnone).
        apply (Hexact _ _ Hnames) in Hin as (d' & Hd' & _). congruence.
Qed.

Lemma get_devices_by_type_result_witness :
  let vr := mkVR (λ _, TrackedDeviceClass_Controller) (λ _, "LHR-0") in
  let t := (add_tracked_device vr 1 (add_tracked_device vr 0 empty).1).1 in
  let reused := (run vr [AddTrackedDevice 0; AddTrackedDevice 1;
                         RemoveTrackedDevice 0; AddTrackedDevice 2;
                         RemoveTrackedDevice 1] empty).1 in
  get_devices_by_type t "Controller" =
    Ok [ mkDevice TrackedDevice 0 "Controller";
         mkDevice TrackedDevice 1 "Controller" ] ∧
  (∃ ds, get_devices_by_type t "Controller" = Ok ds ∧
         length ds = 2 ∧
         Forall (λ d, device_class d = "Controller") ds) ∧
  get_devices_by_type t "Headset" = Ok [] ∧
  get_devices_by_type reused "Controller" = Raise KeyError.
Proof.
  intros vr t reused.
  assert (Hnames : object_names t !! "Controller"
                   = Some ["controller_1"; "controller_2"])
    by (vm_compute; reflexivity).
  split; [| split; [| split]].
  - destruct (get_devices_by_type_result t "Controller") as [_ Hlisted].
    destruct (Hlisted _ Hnames) as (_ & Hok & _).
    apply Hok. repeat constructor; vm_compute; reflexivity.
  - destruct (get_devices_by_type_result t "Controller") as [_ Hlisted].
    destruct (Hlisted _ Hnames) as (_ & _ & Hexact).
    apply Hexact.
    destruct empty_well_formed as [Hwf0 Hseq0].
    destruct (add_tracked_device_sequential vr 0 empty Hwf0 Hseq0)
      as (_ & Hwf1 & Hseq1).
    destruct (add_tracked_device_sequential vr 1 _ Hwf1 Hseq1)
      as (_ & Hwf2 & _).
    apply Hwf2.
  - apply (get_devices_by_type_result t "Headset").
    vm_compute. reflexivity.
  - destruct (get_devices_by_type_result reused "Controller")
      as [_ Hlisted].
    destruct (Hlisted ["controller_2"]) as (Hraise & _);
      [vm_compute; reflexivity |].
    apply Hraise. exists "controller_2".
    split; [apply list_elem_of_here | vm_compute; reflexivity].
Defined.

(** Disconnect events on a well-formed registry: [poll_vr_events] returns,
    the registry stays well formed, none of the slots of the events is
    tracked afterwards and the other slots are tracked as before. *)
Theorem poll_disconnects (vr : IVRSystem) (events : list VREvent_t) :
  ∀ t,
    well_formed t →
    Forall (λ event, eventType event = VREvent_TrackedDeviceDeactivated)
      events →
    let t' := (poll_vr_events vr events t).1 in
    (poll_vr_events vr events t).2 = Ok tt ∧
    well_formed t' ∧
    (∀ event, event ∈ events →
              device_index_map t' !! trackedDeviceIndex event = None) ∧
    (∀ j, (∀ event, event ∈ events → trackedDeviceIndex event ≠ j) →
          device_index_map t' !! j = device_index_map t !! j) ∧
    (∀ j, device_index_map t !! j = None → device_index_map t' !! j = None).
Proof.
  induction events as [|event events IH]; intros t Hwf Hall; cbv zeta.
  - cbn [poll_vr_events]. unfold ret. cbn [fst snd].
    split; [done |]. split; [done |].
    split; [intros event Hin; inversion Hin |].
    split; [intros j _; reflexivity | intros j Hj; exact Hj].
  - inversion Hall as [|? ? Htype Hall']; subst.
    assert (Hstep : ∃ t1,
              (if decide (is_Some (device_index_map t
                                     !! trackedDeviceIndex event))
               then remove_tracked_device (trackedDeviceIndex event) t
               else ret tt t) = (t1, Ok tt) ∧
              well_formed t1 ∧
              device_index_map t1 !! trackedDeviceIndex event = None ∧
              (∀ j, j ≠ trackedDeviceIndex event →
                    device_index_map t1 !! j = device_index_map t !! j)).
    { destruct (decide (is_Some _)) as [[n Hn]|Hnone].
      - destruct (remove_tracked_device_tracked_core t _ n Hwf Hn)
          as (Hok & Hwf1 & Hgone & _ & _ & Hother & _).
        destruct (remove_tracked_device (trackedDeviceIndex event) t)
          as [t1 r]. cbn in *. subst r. by exists t1.
      - exists t. split; [done |]. split; [done |].
        split; [| done].
        destruct (device_index_map t !! trackedDeviceIndex event) eqn:Hl;
          [| done].
        exfalso. apply Hnone. by eexists. }
    destruct Hstep as (t1 & Hstep & Hwf1 & Hgone & Hother).
    assert (Hnext : poll_vr_events vr (event :: events) t
                    = poll_vr_events vr events t1).
    { cbn [poll_vr_events]. unfold bind. rewrite Htype. by rewrite Hstep. }
    rewrite Hnext.
    destruct (IH t1 Hwf1 Hall') as (Hok & Hwf' & Hgone' & Hother' & Hstay).
    split; [done |]. split; [done |]. split; [| split].
    + intros ev [-> | Hin]%elem_of_cons; [by apply Hstay | by apply Hgone'].
    + intros j Hj. rewrite Hother'.
      * apply Hother. intros ->. apply (Hj event); [left | done].
      * intros ev Hin. apply Hj. by right.
    + intros j Hj. apply Hstay.
      destruct (decide (j = trackedDeviceIndex event)) as [->|Hne];
        [done |]. by rewrite Hother.
Qed.

Lemma poll_disconnects_witness :
  let vr := mkVR (λ _, TrackedDeviceClass_HMD) (λ _, "LHR-0") in
  let t := (add_tracked_device vr 0 empty).1 in
  let events := [mkEvent VREvent_TrackedDeviceDeactivated 0;
                 mkEvent VREvent_TrackedDeviceDeactivated 0] in
  (poll_vr_events vr events t).2 = Ok tt ∧
  device_index_map (poll_vr_events vr events t).1 !! 0%nat = None.
Proof.
  intros vr t events.
  destruct (add_tracked_device_fresh_core vr 0 empty "hmd_1")
    as (_ & Hwf & _);
    [apply empty_well_formed | reflexivity | reflexivity |].
  destruct (poll_disconnects vr events t Hwf) as (Hok & _ & Hgone & _).
  { repeat constructor. }
  split; [exact Hok |].
  apply (Hgone (mkEvent VREvent_TrackedDeviceDeactivated 0)). left.
Defined.

(** *** The slots after construction without a configuration *)

Lemma add_as_slots (vr : IVRSystem) (prefix cls : string)
    (h : handle_class) (i : nat) (t : Tracker) (names : list string) :
  slots_match vr t → no_orphans t →
  class_entry (getTrackedDeviceClass vr i) = Some (prefix, cls, h) →
  object_names t !! cls = Some names →
  devices t !! (prefix +:+ pretty (length names + 1)) = None →
  device_index_map t !! i = None →
  slots_match vr (add_as prefix cls h i t).1 ∧
  no_orphans (add_as prefix cls h i t).1.
Proof.
  intros Hmatch Horph Hentry Hnames Hfree Hi.
  rewrite (add_as_eq prefix cls h i t names Hnames). cbn [fst].
  set (device_name := prefix +:+ pretty (length names + 1)) in *.
  unfold slots_match, no_orphans.
  cbn [object_names devices device_index_map]. split.
  - intros j n. rewrite lookup_insert. case_decide as Hj.
    + intros [= <-]. subst j. exists (mkDevice h i cls), prefix.
      by rewrite lookup_insert_eq.
    + intros Hn. destruct (Hmatch j n Hn) as (d & p & Hd & Hidx & Hcls).
      exists d, p. rewrite lookup_insert_ne; [done | congruence].
  - intros n d. rewrite lookup_insert. case_decide as Hn.
    + intros _. exists i. subst n. apply lookup_insert_eq.
    + intros Hd. destruct (Horph n d Hd) as [j Hj].
      exists j. rewrite lookup_insert_ne; [done | congruence].
Qed.

Lemma init_step (vr : IVRSystem) (poses : list TrackedDevicePose_t)
    (i : nat) (p : TrackedDevicePose_t) (t : Tracker) :
  well_formed t → sequential t → slots_match vr t → no_orphans t →
  device_index_map t !! i = None →
  poses !! i = Some p →
  ∃ t1,
    (if bDeviceIsConnected p then add_tracked_device vr i else ret tt) t
      = (t1, Ok tt) ∧
    well_formed t1 ∧ sequential t1 ∧ slots_match vr t1 ∧ no_orphans t1 ∧
    (∀ j, is_Some (device_index_map t1 !! j) ↔
          is_Some (device_index_map t !! j) ∨
          (j = i ∧ listed_slot vr poses i)).
Proof.
  intros Hwf Hseq Hmatch Horph Hi Hp.
  assert (Hsame : ¬ listed_slot vr poses i →
            ∀ j, is_Some (device_index_map t !! j) ↔
                 is_Some (device_index_map t !! j) ∨
                 (j = i ∧ listed_slot vr poses i)) by tauto.
  destruct (bDeviceIsConnected p) eqn:Hconn.
  - destruct (class_entry (getTrackedDeviceClass vr i))
      as [[[prefix cls] h]|] eqn:Hentry.
    + pose proof (class_entry_prefix _ _ _ _ Hentry) as Hprefix.
      destruct (proj1 Hseq _ _ Hprefix) as (names & Hnames & _).
      pose proof (sequential_fresh t cls prefix names Hwf Hseq Hprefix
                    Hnames) as Hfree.
      destruct (add_as_slots vr prefix cls h i t names Hmatch Horph Hentry
                  Hnames Hfree Hi) as [Hmatch1 Horph1].
      pose proof (add_as_well_formed prefix cls h i t names Hwf Hnames
                    Hfree) as Hwf1.
      pose proof (add_as_sequential prefix cls h i t names Hseq Hprefix
                    Hnames) as Hseq1.
      rewrite (add_tracked_device_as vr i prefix cls h Hentry).
      rewrite (add_as_eq prefix cls h i t names Hnames) in *.
      cbn [fst] in *. eexists. split; [done |].
      split; [done |]. split; [done |]. split; [done |]. split; [done |].
      intros j. cbn [device_index_map]. rewrite lookup_insert.
      case_decide as Hj.
      * subst j. split; [| by eexists]. intros _. right. split; [done |].
        exists p. split; [done |]. split; [done |]. rewrite Hentry.
        by eexists.
      * split; [by left |]. intros [? | [? _]]; [done | congruence].
    + exists t. split.
      { unfold add_tracked_device. unfold class_entry in Hentry.
        by destruct (getTrackedDeviceClass vr i). }
      split; [done |]. split; [done |]. split; [done |]. split; [done |].
      apply Hsame. intros (p' & Hp' & _ & [? Hsome]). congruence.
  - exists t. split; [done |].
    split; [done |]. split; [done |]. split; [done |]. split; [done |].
    apply Hsame. intros (p' & Hp' & Hconn' & _). congruence.
Qed.

Lemma init_slots_tracks (vr : IVRSystem) (poses : list TrackedDevicePose_t)
    (idxs : list nat) :
  ∀ t,
    NoDup idxs →
    Forall (λ i, i < length poses ∧ device_index_map t !! i = None) idxs →
    well_formed t → sequential t → slots_match vr t → no_orphans t →
    let t' := (init_slots vr poses None idxs t).1 in
    (init_slots vr poses None idxs t).2 = Ok tt ∧
    well_formed t' ∧ slots_match vr t' ∧ no_orphans t' ∧
    (∀ j, is_Some (device_index_map t' !! j) ↔
          is_Some (device_index_map t !! j) ∨
          (j ∈ idxs ∧ listed_slot vr poses j)).
Proof.
  induction idxs as [|i idxs IH];
    intros t Hnodup Hall Hwf Hseq Hmatch Horph; cbv zeta.
  - cbn. split; [done |]. split; [done |]. split; [done |].
    split; [done |]. intros j. split; [by left |].
    intros [? | [Hin _]]; [done | inversion Hin].
  - apply NoDup_cons in Hnodup as [Hnotin Hnodup].
    inversion Hall as [|? ? [Hlt Hi] Hall']; subst.
    apply lookup_lt_is_Some_2 in Hlt as [p Hp].
    destruct (init_step vr poses i p t Hwf Hseq Hmatch Horph Hi Hp)
      as (t1 & Hstep & Hwf1 & Hseq1 & Hmatch1 & Horph1 & Hdom1).
    assert (Hnext : init_slots vr poses None (i :: idxs) t
                    = init_slots vr poses None idxs t1).
    { cbn [init_slots]. unfold bind, lift, getitem. rewrite Hp.
      cbv beta iota. by rewrite Hstep. }
    rewrite Hnext.
    destruct (IH t1 Hnodup) as (Hok & Hwf' & Hmatch' & Horph' & Hdom');
      try done.
    { apply Forall_forall. intros j Hj.
      rewrite Forall_forall in Hall'. destruct (Hall' j Hj) as [Hlt Hnone].
      split; [done |].
      destruct (device_index_map t1 !! j) eqn:Hl; [| done].
      exfalso. destruct (proj1 (Hdom1 j)) as [[? ?] | [-> _]];
        [by eexists | congruence | done]. }
    split; [done |]. split; [done |]. split; [done |]. split; [done |].
    intros j. rewrite Hdom', Hdom1, elem_of_cons. split.
    + intros [[? | [-> ?]] | [? ?]]; auto.
    + intros [? | [[-> | ?] ?]]; auto.
Qed.

Lemma empty_slots : ∀ vr, slots_match vr empty ∧ no_orphans empty.
Proof.
  intros vr. split.
  - intros i n Hi. cbn [empty device_index_map] in Hi.
    by rewrite lookup_empty in Hi.
  - intros n d Hd. cbn [empty devices] in Hd. by rewrite lookup_empty in Hd.
Qed.

(** Construction without a configuration, on a snapshot that has the
    backend's sixty-four slots: the constructor returns; the slots tracked
    are exactly the slots that are connected and of a class that
    [add_tracked_device] knows; each leads to a handle for that slot and of
    that class; every handle is that of a tracked slot; and the registry
    invariant holds. *)
Theorem init_tracks_connected_slots (vr : IVRSystem)
    (poses : list TrackedDevicePose_t) :
  k_unMaxTrackedDeviceCount ≤ length poses →
  let t := (init vr poses None).1 in
  (init vr poses None).2 = Ok tt ∧
  (∀ i, is_Some (device_index_map t !! i) ↔
        i < k_unMaxTrackedDeviceCount ∧ listed_slot vr poses i) ∧
  slots_match vr t ∧ no_orphans t ∧ registry_invariant t.
Proof.
  intros Hlen. cbv zeta. unfold init.
  destruct empty_well_formed as [Hwf Hseq].
  destruct (empty_slots vr) as [Hmatch Horph].
  destruct (init_slots_tracks vr poses (seq 0 k_unMaxTrackedDeviceCount)
              empty) as (Hok & Hwf' & Hmatch' & Horph' & Hdom);
    try done.
  { apply NoDup_seq. }
  { apply Forall_forall. intros i Hi%elem_of_seq. split; [lia |].
    cbn [empty device_index_map]. apply lookup_empty. }
  split; [done |]. split; [| split; [done | split; [done | apply Hwf']]].
  intros i. rewrite Hdom, elem_of_seq. cbn [empty device_index_map].
  rewrite lookup_empty. split.
  - intros [[? [=]] | [? ?]]. split; [lia | done].
  - intros [? ?]. right. split; [lia | done].
Qed.

Lemma init_tracks_connected_slots_witness :
  let vr := mkVR (λ i, match i with
                       | 0 => TrackedDeviceClass_HMD
                       | 1 => TrackedDeviceClass_Controller
                       | 2 => TrackedDeviceClass_DisplayRedirect
                       | _ => TrackedDeviceClass_GenericTracker
                       end) (λ _, "LHR-0") in
  let here := mkPose true true [] [] [] in
  let away := mkPose false false [] [] [] in
  let poses := [here; here; here] ++ replicate 61 away in
  let t := (init vr poses None).1 in
  (init vr poses None).2 = Ok tt ∧
  is_Some (device_index_map t !! 0%nat) ∧
  (∃ device_name d,
     device_index_map t !! 1%nat = Some device_name ∧
     devices t !! device_name = Some d ∧ index d = 1%nat ∧
     device_class d = "Controller") ∧
  ¬ is_Some (device_index_map t !! 2%nat) ∧
  ¬ is_Some (device_index_map t !! 7%nat).
Proof.
  intros vr here away poses t.
  destruct (init_tracks_connected_slots vr poses)
    as (Hok & Hdom & Hmatch & _).
  { unfold poses. rewrite length_app, length_replicate. reflexivity. }
  split; [exact Hok |]. split; [| split; [| split]].
  - apply Hdom. split; [unfold k_unMaxTrackedDeviceCount; lia |].
    exists here. split; [reflexivity |]. split; [reflexivity |].
    by eexists.
  - assert (Hone : is_Some (device_index_map t !! 1%nat)).
    { apply Hdom. split; [unfold k_unMaxTrackedDeviceCount; lia |].
      exists here. split; [reflexivity |]. split; [reflexivity |].
      by eexists. }
    destruct Hone as [device_name Hname].
    destruct (Hmatch 1%nat device_name Hname)
      as (d & prefix & Hd & Hindex & Hentry).
    exists device_name, d. split; [exact Hname |]. split; [exact Hd |].
    split; [exact Hindex |]. cbn in Hentry. by injection Hentry as _ <- _.
  - intros [_ (p & _ & _ & Hcls)]%Hdom. cbn in Hcls.
    by destruct Hcls.
  - intros [_ (p & Hp & Hconn & _)]%Hdom. cbn in Hp.
    injection Hp as <-. discriminate Hconn.
Defined.

End registry_more.
